(** * function.h: a type-erased callable container with small-object storage

    Shallow embedding of [template<R, Args...> class function<R (Args...)>]
    from [src/function.h].  Objects of class [function] live at locations of
    an explicit memory, so that [this] and [other] may alias; the heap owned
    by [std::unique_ptr] is a second finite map.  Operations are written in a
    small state-and-error monad whose failures are the undefined behaviours
    of the C++ object model that the member functions can run into. *)

From Stdlib Require Import ZArith.
From stdpp Require Import base option gmap.

Local Open Scope Z_scope.

(** ** Pointers to member functions *)

Section WrapperMember.
(* template <typename F, typename Class, typename... FunArgs> *)
Variables (R Class FunArgs : Type).

(** [using member = F Class::*]: the denotation of a pointer to a member
    function is the function it selects; applied to a receiver and the
    parameters it gives the result and the receiver afterwards. *)
Definition member : Type := Class -> FunArgs -> R * Class.

(** Direct invocation [instance.bar(args...)]. *)
Definition direct_invocation (bar : member) (instance : Class)
    (args : FunArgs) : R * Class :=
  bar instance args.

(** [R call(Class&& object, FunArgs&&... fun_args)
      { return (object.*callable)(std::forward<FunArgs>(fun_args)...); }] *)
Definition wrapper_member_call (callable : member) (object : Class)
    (fun_args : FunArgs) : R :=
  fst (callable object fun_args).
End WrapperMember.

Arguments direct_invocation {R Class FunArgs} bar instance args.
Arguments wrapper_member_call {R Class FunArgs} callable object fun_args.

Section Function.
(* template<typename R, typename... Args> class function<R (Args...)> *)
Variables (R Args : Type).

(** ** Callable types

    What the class template uses of a type [F] it is instantiated with:
    its size, whether its move constructor is [noexcept], its call
    operator (which may change the state the callable captured), and its
    copy and move constructors.  The move constructor gives the object
    constructed and what is left of the source. *)
Record Callable : Type := {
  carrier :> Type;
  size_of : Z;
  is_nothrow_move_constructible : bool;
  invoke : carrier -> Args -> R * carrier;
  copy_constructor : carrier -> carrier;
  move_constructor : carrier -> carrier * carrier
}.

(** ** class wrapper and its two subclasses

    [wrapper_member<F, Class>] is only ever instantiated with an empty
    [FunArgs] pack (constructor [function(F Class::* member)]), so its
    [call(Class&&)] overrides [wrapper::call(Args&&...)] when the
    signature is [R(Class)]: the receiver is the whole argument list. *)
Inductive wrapper : Type :=
| wrapper_function (T : Callable) (callable : T)
| wrapper_member (callable : member R Args unit).

(** [virtual R call(Args&&...)]; the result and the adapter afterwards. *)
Definition call (w : wrapper) (args : Args) : R * wrapper :=
  match w with
  | wrapper_function T callable =>
      let (r, callable') := invoke T callable args in
      (r, wrapper_function T callable')
  | wrapper_member callable =>
      (wrapper_member_call callable args tt, wrapper_member callable)
  end.

(** The adapter that [clone_small] and [clone] construct:
    [wrapper_function<T>(callable)] / [wrapper_member<F, Class>(callable)]. *)
Definition copy_of (w : wrapper) : wrapper :=
  match w with
  | wrapper_function T callable =>
      wrapper_function T (copy_constructor T callable)
  | wrapper_member callable => wrapper_member callable
  end.

(** The adapter that [move_by_pointer] constructs from
    [std::move(callable)], and the adapter it leaves behind. *)
Definition moved_to (w : wrapper) : wrapper :=
  match w with
  | wrapper_function T callable =>
      wrapper_function T (fst (move_constructor T callable))
  | wrapper_member callable => wrapper_member callable
  end.

Definition moved_from (w : wrapper) : wrapper :=
  match w with
  | wrapper_function T callable =>
      wrapper_function T (snd (move_constructor T callable))
  | wrapper_member callable => wrapper_member callable
  end.

(** ** Memory

    Objects of class [function] and heap blocks are addressed by natural
    numbers.  [small_objects] holds the data member [small_object] of every
    object, [unions] its anonymous union, [heap] the adapters allocated by
    [std::make_unique].  The union holds at most one live object: an
    adapter constructed in [buffer], or the [big_pointer].  A location
    without an entry in [unions] has no live object in its union (not yet
    constructed, or destroyed). *)
Inductive storage : Type :=
| in_buffer (w : wrapper)
| as_pointer (big_pointer : option nat).

Record memory : Type := {
  small_objects : gmap nat bool;
  unions : gmap nat storage;
  heap : gmap nat wrapper
}.

Inductive undefined_behaviour : Type :=
| null_dereference      (* -> on a null unique_ptr *)
| outside_lifetime      (* use of an object that is not alive *)
| inactive_member       (* use of the union member that is not active *)
| invalid_delete        (* delete of a block that is not allocated *)
| overlapping_storage.  (* construction over the object it reads *)

(** [Throw] is [throw bad_function_call()], the only exception the class
    raises. *)
Inductive outcome (A : Type) : Type :=
| Ok (a : A) (m : memory)
| Throw (m : memory)
| Undefined (why : undefined_behaviour).

Definition M (A : Type) : Type := memory -> outcome A.

Definition ret {A} (a : A) : M A := fun m => Ok A a m.

Definition bind {A B} (c : M A) (k : A -> M B) : M B :=
  fun m =>
    match c m with
    | Ok _ a m' => k a m'
    | Throw _ m' => Throw B m'
    | Undefined _ why => Undefined B why
    end.

Definition throw_bad_function_call {A} : M A := fun m => Throw A m.

Definition undefined {A} (why : undefined_behaviour) : M A :=
  fun _ => Undefined A why.

Notation "'let*' x ':=' c 'in' k" := (bind c (fun x => k))
  (at level 10, x name, c at level 100, k at level 200,
   format "'[v' 'let*'  x  ':='  c  'in' '/' k ']'").
Notation "c ';;' k" := (bind c (fun _ => k))
  (at level 100, k at level 200, right associativity).

(** *** Accesses to a [function] object at location [this] *)

(** Read of the data member [small_object]. *)
Definition read_small_object (this : nat) : M bool :=
  fun m =>
    match small_objects m !! this with
    | Some b => Ok bool b m
    | None => Undefined bool outside_lifetime
    end.

(** [small_object = b]. *)
Definition write_small_object (this : nat) (b : bool) : M unit :=
  fun m =>
    Ok unit tt {| small_objects := <[this := b]> (small_objects m);
                  unions := unions m;
                  heap := heap m |}.

(** [reinterpret_cast<wrapper*>(buffer)->...]: the adapter alive in the
    buffer. *)
Definition buffer_wrapper (this : nat) : M wrapper :=
  fun m =>
    match unions m !! this with
    | Some (in_buffer w) => Ok wrapper w m
    | Some (as_pointer _) => Undefined wrapper inactive_member
    | None => Undefined wrapper outside_lifetime
    end.

(** Read of the union member [big_pointer]. *)
Definition read_big_pointer (this : nat) : M (option nat) :=
  fun m =>
    match unions m !! this with
    | Some (as_pointer p) => Ok (option nat) p m
    | Some (in_buffer _) => Undefined (option nat) inactive_member
    | None => Undefined (option nat) outside_lifetime
    end.

(** [big_pointer = p], on a [big_pointer] that was just read. *)
Definition write_big_pointer (this : nat) (p : option nat) : M unit :=
  fun m =>
    Ok unit tt {| small_objects := small_objects m;
                  unions := <[this := as_pointer p]> (unions m);
                  heap := heap m |}.

(** [new (buffer) X(...)]: whatever was in the union is overwritten
    without its destructor being run. *)
Definition placement_new (this : nat) (s : storage) : M unit :=
  fun m =>
    Ok unit tt {| small_objects := small_objects m;
                  unions := <[this := s]> (unions m);
                  heap := heap m |}.

(** The adapter in the buffer after a member function changed it. *)
Definition update_buffer (this : nat) (w : wrapper) : M unit :=
  fun m =>
    Ok unit tt {| small_objects := small_objects m;
                  unions := <[this := in_buffer w]> (unions m);
                  heap := heap m |}.

(** The object in the union has been destroyed. *)
Definition end_lifetime (this : nat) : M unit :=
  fun m =>
    Ok unit tt {| small_objects := small_objects m;
                  unions := delete this (unions m);
                  heap := heap m |}.

(** *** The heap behind [std::unique_ptr] *)

(** [std::make_unique<W>(...)]: a block that is not in use. *)
Definition make_unique (w : wrapper) : M nat :=
  fun m =>
    let a := fresh (dom (heap m)) in
    Ok nat a {| small_objects := small_objects m;
                unions := unions m;
                heap := <[a := w]> (heap m) |}.

(** [p->...] on a [unique_ptr]. *)
Definition dereference (p : option nat) : M (nat * wrapper) :=
  fun m =>
    match p with
    | None => Undefined (nat * wrapper) null_dereference
    | Some a =>
        match heap m !! a with
        | Some w => Ok (nat * wrapper) (a, w) m
        | None => Undefined (nat * wrapper) outside_lifetime
        end
    end.

(** The adapter in block [a] after a call changed it. *)
Definition store (a : nat) (w : wrapper) : M unit :=
  fun m =>
    Ok unit tt {| small_objects := small_objects m;
                  unions := unions m;
                  heap := <[a := w]> (heap m) |}.

(** [delete] of the adapter in block [a] (virtual destructor). *)
Definition delete_wrapper (a : nat) : M unit :=
  fun m =>
    match heap m !! a with
    | Some _ =>
        Ok unit tt {| small_objects := small_objects m;
                      unions := unions m;
                      heap := delete a (heap m) |}
    | None => Undefined unit invalid_delete
    end.

(** [~unique_ptr()] of [big_pointer]. *)
Definition unique_ptr_destructor (this : nat) : M unit :=
  let* p := read_big_pointer this in
  match p with
  | Some a => delete_wrapper a
  | None => ret tt
  end ;;
  end_lifetime this.

(** [new (buffer) std::unique_ptr<wrapper>(std::move(other.big_pointer))]:
    the source gives up its pointer and is left null. *)
Definition unique_ptr_move (this other : nat) : M unit :=
  let* p := read_big_pointer other in
  write_big_pointer other None ;;
  placement_new this (as_pointer p).

(** *** Virtual member functions of [wrapper], called on the adapter [w]
    that lives in the buffer of [from] *)

(** [void move_by_pointer(void* to)
      { new (to) wrapper_function<T>(std::move(callable)); }]
    The new adapter is constructed from the callable of this one, which is
    left moved-from; constructing it over this very adapter would reuse
    the storage of the object it reads. *)
Definition move_by_pointer (from : nat) (w : wrapper) (to : nat) : M unit :=
  if decide (from = to) then undefined overlapping_storage
  else
    placement_new to (in_buffer (moved_to w)) ;;
    update_buffer from (moved_from w).

(** [void clone_small(void* to) const
      { new (to) wrapper_function<T>(callable); }] *)
Definition clone_small (w : wrapper) (to : nat) : M unit :=
  placement_new to (in_buffer (copy_of w)).

(** [std::unique_ptr<wrapper> clone() const
      { return std::make_unique<wrapper_function<T>>(callable); }] *)
Definition clone (w : wrapper) : M nat :=
  make_unique (copy_of w).

(** ** Members of [function<R (Args...)>] *)

(** [static constexpr int MAX_SIZE = 128;] *)
Definition MAX_SIZE : Z := 128.

(** [function(std::nullptr_t) noexcept
      : small_object(false), big_pointer(nullptr) {}] *)
Definition function_nullptr (this : nat) : M unit :=
  write_small_object this false ;;
  placement_new this (as_pointer None).

(** [function() noexcept : function(nullptr) {}] *)
Definition function_default (this : nat) : M unit :=
  function_nullptr this.

(** [function(const function& other)] *)
Definition function_copy (this other : nat) : M unit :=
  let* small := read_small_object other in
  (if small then
     let* w := buffer_wrapper other in
     clone_small w this
   else
     let* p := read_big_pointer other in
     let* target := dereference p in
     let* a := clone (snd target) in
     placement_new this (as_pointer (Some a))) ;;
  let* small' := read_small_object other in
  write_small_object this small'.

(** [function(function&& other) noexcept] *)
Definition function_move (this other : nat) : M unit :=
  let* small := read_small_object other in
  (if small then
     let* w := buffer_wrapper other in
     move_by_pointer other w this ;;
     placement_new other (as_pointer None)
   else
     unique_ptr_move this other) ;;
  let* small' := read_small_object other in
  write_small_object this small' ;;
  write_small_object other false.

(** [template <typename F> function(F f)] *)
Definition function_from (F : Callable) (f : F) (this : nat) : M unit :=
  if is_nothrow_move_constructible F && (size_of F >? MAX_SIZE) then
    write_small_object this false ;;
    let* a := make_unique
                (wrapper_function F (fst (move_constructor F f))) in
    placement_new this (as_pointer (Some a))
  else
    write_small_object this true ;;
    placement_new this
      (in_buffer (wrapper_function F (fst (move_constructor F f)))).

(** [template <typename F, typename Class> function(F Class::* member)] *)
Definition function_member (callable : member R Args unit) (this : nat)
    : M unit :=
  write_small_object this true ;;
  placement_new this (in_buffer (wrapper_member callable)).

(** [void destruction()] *)
Definition destruction (this : nat) : M unit :=
  let* small := read_small_object this in
  if small then
    buffer_wrapper this ;;
    end_lifetime this
  else
    unique_ptr_destructor this.

(** [~function() { destruction(); }] *)
Definition function_destructor (this : nat) : M unit :=
  destruction this.

(** A local variable of type [function]: storage that no object occupies,
    and its end of scope, where the destructor runs and the storage is
    given back. *)
Definition local_variable : M nat :=
  fun m =>
    Ok nat (fresh (dom (small_objects m) ∪ dom (unions m))) m.

Definition end_of_scope (tmp : nat) : M unit :=
  function_destructor tmp ;;
  fun m =>
    Ok unit tt {| small_objects := delete tmp (small_objects m);
                  unions := delete tmp (unions m);
                  heap := heap m |}.

(** [function& operator=(function&& other) noexcept] *)
Definition assign_move (this other : nat) : M unit :=
  destruction this ;;
  let* small := read_small_object other in
  (if small then
     let* w := buffer_wrapper other in
     move_by_pointer other w this ;;
     placement_new other (as_pointer None)
   else
     unique_ptr_move this other) ;;
  let* small' := read_small_object other in
  write_small_object this small' ;;
  write_small_object other false.

(** [void swap(function& other) noexcept] *)
Definition swap (this other : nat) : M unit :=
  let* tmp := local_variable in
  function_move tmp other ;;
  assign_move other this ;;
  assign_move this tmp ;;
  end_of_scope tmp.

(** [function& operator=(const function& other)] *)
Definition assign_copy (this other : nat) : M unit :=
  destruction this ;;
  let* tmp := local_variable in
  function_copy tmp other ;;
  swap this tmp ;;
  end_of_scope tmp.

(** [explicit operator bool() const noexcept] *)
Definition operator_bool (this : nat) : M bool :=
  let* small := read_small_object this in
  if small then ret true
  else
    let* p := read_big_pointer this in
    ret (match p with Some _ => true | None => false end).

(** [R operator()(Args... args)] *)
Definition operator_call (this : nat) (args : Args) : M R :=
  let* live := operator_bool this in
  if negb live then throw_bad_function_call
  else
    let* small := read_small_object this in
    if small then
      let* w := buffer_wrapper this in
      update_buffer this (snd (call w args)) ;;
      ret (fst (call w args))
    else
      let* p := read_big_pointer this in
      let* target := dereference p in
      store (fst target) (snd (call (snd target) args)) ;;
      ret (fst (call (snd target) args)).

(** ** What a container holds

    The three states of section 4.5 of the design, read off the memory:
    [None] when the flag and the union disagree or the object is not
    alive. *)
Inductive state : Type :=
| live_inline (w : wrapper)
| live_heap (a : nat) (w : wrapper)
| empty.

Definition view (m : memory) (c : nat) : option state :=
  match small_objects m !! c, unions m !! c with
  | Some true, Some (in_buffer w) => Some (live_inline w)
  | Some false, Some (as_pointer (Some a)) =>
      match heap m !! a with
      | Some w => Some (live_heap a w)
      | None => None
      end
  | Some false, Some (as_pointer None) => Some empty
  | _, _ => None
  end.

Definition mode_flag (s : state) : bool :=
  match s with
  | live_inline _ => true
  | live_heap _ _ | empty => false
  end.

Definition adapter (s : state) : option wrapper :=
  match s with
  | live_inline w | live_heap _ w => Some w
  | empty => None
  end.

Definition owned (s : state) : option nat :=
  match s with
  | live_heap a _ => Some a
  | live_inline _ | empty => None
  end.

(** What a client can see of a container: the mode flag and, when live,
    the adapter that calls are dispatched to. *)
Definition observable (s : state) : bool * option wrapper :=
  (mode_flag s, adapter s).

(** The state that a container takes over from one in state [s]: an
    inline adapter is rebuilt by [move_by_pointer], a heap block changes
    owner as it is. *)
Definition transferred (s : state) : state :=
  match s with
  | live_inline w => live_inline (moved_to w)
  | live_heap a w => live_heap a w
  | empty => empty
  end.

(** The state of a copy of a container in state [s] whose adapter, if
    cloned on the heap, went to block [a]. *)
Definition cloned (a : nat) (s : state) : state :=
  match s with
  | live_inline w => live_inline (copy_of w)
  | live_heap _ w => live_heap a (copy_of w)
  | empty => empty
  end.

(** The object at [d] is the same in [m] and [m']. *)
Definition same_object (m m' : memory) (d : nat) : Prop :=
  small_objects m' !! d = small_objects m !! d /\
  unions m' !! d = unions m !! d.

(** The heap after the blocks owned by a container in state [s] have
    been released. *)
Definition released (s : state) (h : gmap nat wrapper) : gmap nat wrapper :=
  match owned s with
  | Some a => delete a h
  | None => h
  end.

(** The state of a live container after its adapter became [w]. *)
Definition with_adapter (w : wrapper) (s : state) : state :=
  match s with
  | live_inline _ => live_inline w
  | live_heap a _ => live_heap a w
  | empty => empty
  end.

(** What the rest of the program may rely on in a container that is
    empty: it tests false, a call throws, destroying it releases nothing,
    and it can be the target of a move assignment from any other
    container. *)
Definition valid_empty_container (m : memory) (c : nat) : Prop :=
  small_objects m !! c = Some false /\
  unions m !! c = Some (as_pointer None) /\
  operator_bool c m = Ok bool false m /\
  (forall args, operator_call c args m = Throw R m) /\
  (exists m',
      function_destructor c m = Ok unit tt m' /\ heap m' = heap m) /\
  (forall e se,
      e <> c ->
      view m e = Some se ->
      exists m',
        assign_move c e m = Ok unit tt m' /\
        view m' c = Some (transferred se) /\
        view m' e = Some empty /\
        heap m' = heap m).

(** The value an operation returned, if it returned. *)
Definition returned {A} (o : outcome A) : option A :=
  match o with
  | Ok _ a _ => Some a
  | Throw _ _ | Undefined _ _ => None
  end.

Definition final {A} (o : outcome A) : option memory :=
  match o with
  | Ok _ _ m | Throw _ m => Some m
  | Undefined _ _ => None
  end.

(** The copy (move) constructor of the stored callable gives an object
    equal to its argument. *)
Definition faithful_copy (w : wrapper) : Prop :=
  match w with
  | wrapper_function T _ => forall x : T, copy_constructor T x = x
  | wrapper_member _ => True
  end.

Definition faithful_move (w : wrapper) : Prop :=
  match w with
  | wrapper_function T _ => forall x : T, fst (move_constructor T x) = x
  | wrapper_member _ => True
  end.

Definition copies_faithfully (s : state) : Prop :=
  match adapter s with
  | Some w => faithful_copy w
  | None => True
  end.

Definition moves_faithfully (s : state) : Prop :=
  match adapter s with
  | Some w => faithful_move w
  | None => True
  end.

(** Two containers do not own the same heap block. *)
Definition separate (s1 s2 : state) : Prop :=
  match owned s1, owned s2 with
  | Some a1, Some a2 => a1 <> a2
  | _, _ => True
  end.

(** ** Consistency of a memory

    [d] is in use when one of its two members has an entry; it is raw
    storage when neither has.  A memory is consistent when every object in
    use is a well-formed container, no heap block has two owners, and every
    heap block has an owner. *)
Definition allocated (m : memory) (d : nat) : Prop :=
  is_Some (small_objects m !! d) \/ is_Some (unions m !! d).

Definition raw_storage (m : memory) (d : nat) : Prop :=
  small_objects m !! d = None /\ unions m !! d = None.

Definition exclusive (m : memory) : Prop :=
  forall c1 c2 s1 s2,
    c1 <> c2 -> view m c1 = Some s1 -> view m c2 = Some s2 ->
    separate s1 s2.

Definition no_leak (m : memory) : Prop :=
  forall a, is_Some (heap m !! a) ->
            exists c w, view m c = Some (live_heap a w).

Definition consistent (m : memory) : Prop :=
  (forall d, allocated m d -> is_Some (view m d)) /\
  exclusive m /\
  no_leak m.

(** The heap after a container in state [s] was given a block for its
    adapter [w], if it is in heap mode. *)
Definition extended (s : state) (w : wrapper) (h : gmap nat wrapper)
    : gmap nat wrapper :=
  match owned s with
  | Some a => <[a := w]> h
  | None => h
  end.
End Function.

Arguments carrier {R Args} _.
Arguments size_of {R Args} _.
Arguments is_nothrow_move_constructible {R Args} _.
Arguments invoke {R Args} _ _ _.
Arguments copy_constructor {R Args} _ _.
Arguments move_constructor {R Args} _ _.
Arguments wrapper_function {R Args} T callable.
Arguments wrapper_member {R Args} callable.
Arguments call {R Args} w args.
Arguments copy_of {R Args} w.
Arguments moved_to {R Args} w.
Arguments moved_from {R Args} w.
Arguments in_buffer {R Args} w.
Arguments as_pointer {R Args} big_pointer.
Arguments small_objects {R Args} _.
Arguments unions {R Args} _.
Arguments heap {R Args} _.
Arguments Ok {R Args A} a m.
Arguments Throw {R Args A} m.
Arguments Undefined {R Args A} why.
Arguments ret {R Args A} a _.
Arguments bind {R Args A B} c k _.
Arguments throw_bad_function_call {R Args A} _.
Arguments undefined {R Args A} why _.
Arguments read_small_object {R Args} this _.
Arguments write_small_object {R Args} this b _.
Arguments buffer_wrapper {R Args} this _.
Arguments read_big_pointer {R Args} this _.
Arguments write_big_pointer {R Args} this p _.
Arguments placement_new {R Args} this s _.
Arguments end_lifetime {R Args} this _.
Arguments update_buffer {R Args} this w _.
Arguments make_unique {R Args} w _.
Arguments dereference {R Args} p _.
Arguments store {R Args} a w _.
Arguments delete_wrapper {R Args} a _.
Arguments unique_ptr_destructor {R Args} this _.
Arguments unique_ptr_move {R Args} this other _.
Arguments move_by_pointer {R Args} from w to _.
Arguments clone_small {R Args} w to _.
Arguments clone {R Args} w _.
Arguments function_nullptr {R Args} this _.
Arguments function_default {R Args} this _.
Arguments function_copy {R Args} this other _.
Arguments function_move {R Args} this other _.
Arguments function_from {R Args} F f this _.
Arguments function_member {R Args} callable this _.
Arguments destruction {R Args} this _.
Arguments function_destructor {R Args} this _.
Arguments local_variable {R Args} _.
Arguments end_of_scope {R Args} tmp _.
Arguments assign_move {R Args} this other _.
Arguments swap {R Args} this other _.
Arguments assign_copy {R Args} this other _.
Arguments operator_bool {R Args} this _.
Arguments operator_call {R Args} this args _.
Arguments live_inline {R Args} w.
Arguments live_heap {R Args} a w.
Arguments empty {R Args}.
Arguments view {R Args} m c.
Arguments mode_flag {R Args} s.
Arguments adapter {R Args} s.
Arguments owned {R Args} s.
Arguments observable {R Args} s.
Arguments transferred {R Args} s.
Arguments cloned {R Args} a s.
Arguments valid_empty_container {R Args} m c.
Arguments with_adapter {R Args} w s.
Arguments same_object {R Args} m m' d.
Arguments released {R Args} s h.
Arguments returned {R Args A} o.
Arguments final {R Args A} o.
Arguments faithful_copy {R Args} w.
Arguments faithful_move {R Args} w.
Arguments copies_faithfully {R Args} s.
Arguments moves_faithfully {R Args} s.
Arguments separate {R Args} s1 s2.
Arguments allocated {R Args} m d.
Arguments raw_storage {R Args} m d.
Arguments exclusive {R Args} m.
Arguments no_leak {R Args} m.
Arguments consistent {R Args} m.
Arguments extended {R Args} s w h.

(** ** Concrete callables for the signature [long (long)] *)

Module Examples.
(** A closure that captured [x] by value: [[x](long a) mutable
    { return x++ + a; }]. *)
Definition counter : Callable Z Z :=
  {| carrier := Z;
     size_of := 8;
     is_nothrow_move_constructible := true;
     invoke := fun x a => (x + a, x + 1);
     copy_constructor := fun x => x;
     move_constructor := fun x => (x, x) |}.

(** The same closure with a captured array that makes it 128 bytes. *)
Definition exact_fit : Callable Z Z :=
  {| carrier := Z;
     size_of := 128;
     is_nothrow_move_constructible := true;
     invoke := fun x a => (x + a, x + 1);
     copy_constructor := fun x => x;
     move_constructor := fun x => (x, x) |}.

(** The same closure with a captured array that makes it 256 bytes. *)
Definition large_counter : Callable Z Z :=
  {| carrier := Z;
     size_of := 256;
     is_nothrow_move_constructible := true;
     invoke := fun x a => (x + a, x + 1);
     copy_constructor := fun x => x;
     move_constructor := fun x => (x, x) |}.

(** A callable that reports how often it was move constructed:
    [struct moves { long n; moves(moves&& o) noexcept : n(o.n + 1) {}
                    long operator()(long) { return n; } };] *)
Definition move_counting : Callable Z Z :=
  {| carrier := Z;
     size_of := 8;
     is_nothrow_move_constructible := true;
     invoke := fun n _ => (n, n);
     copy_constructor := fun n => n;
     move_constructor := fun n => (n + 1, n) |}.

(** [struct Foo { long v; long bar() { return 2 * v; } };] *)
Definition Foo_bar : member Z Z unit := fun v _ => (2 * v, v).

Definition nothing : memory Z Z :=
  {| small_objects := ∅; unions := ∅; heap := ∅ |}.

(** The memory after a sequence of statements that does not fail. *)
Definition after (c : M Z Z unit) (m : memory Z Z) : memory Z Z :=
  match c m with
  | Ok _ m' | Throw m' => m'
  | Undefined _ => m
  end.

(** [function<long (long)> c0(counter{5}), c1(large_counter{7}), c2;] *)
Definition three_containers : memory Z Z :=
  after (function_default 2)
    (after (function_from large_counter 7 1)
       (after (function_from counter 5 0) nothing)).

(** [function<long (long)> a(moves{0}), b(moves{0});] *)
Definition two_movers : memory Z Z :=
  after (function_from move_counting 0 1)
    (after (function_from move_counting 0 0) nothing).
End Examples.

(** * Properties *)

Section Views.
Context {R Args : Type}.
Implicit Types (m : memory R Args) (w : wrapper R Args).

(** ** Reading a state off the memory *)

Lemma view_live_inline m c w :
  view m c = Some (live_inline w) <->
  small_objects m !! c = Some true /\ unions m !! c = Some (in_buffer w).
Proof.
  unfold view.
  destruct (small_objects m !! c) as [[]|], (unions m !! c) as [[|[]]|];
    try destruct (heap m !! _); intuition congruence.
Qed.

Lemma view_live_heap m c a w :
  view m c = Some (live_heap a w) <->
  small_objects m !! c = Some false /\
  unions m !! c = Some (as_pointer (Some a)) /\
  heap m !! a = Some w.
Proof.
  unfold view.
  destruct (small_objects m !! c) as [[]|], (unions m !! c) as [[|[a'|]]|];
    try destruct (heap m !! a') eqn:E; intuition congruence.
Qed.

Lemma view_empty m c :
  view m c = Some empty <->
  small_objects m !! c = Some false /\
  unions m !! c = Some (as_pointer None).
Proof.
  unfold view.
  destruct (small_objects m !! c) as [[]|], (unions m !! c) as [[|[]]|];
    try destruct (heap m !! _); intuition congruence.
Qed.
End Views.

(** ** Running the operations

    Every operation is a function of the memory; [run] unfolds the
    operations down to lookups in the three maps, and [maps] settles the
    lookups. *)

Ltac run :=
  unfold assign_copy, swap, assign_move, function_move, function_copy,
    function_from, function_member, function_default, function_nullptr,
    end_of_scope, function_destructor, destruction, operator_call,
    operator_bool, unique_ptr_destructor, unique_ptr_move, move_by_pointer,
    clone_small, clone, make_unique, dereference, store, delete_wrapper,
    local_variable, read_small_object, write_small_object, buffer_wrapper,
    read_big_pointer, write_big_pointer, placement_new, update_buffer,
  end_lifetime,
    throw_bad_function_call, undefined, bind, ret;
  cbn [small_objects unions heap].

Ltac maps :=
  repeat first
    [ rewrite lookup_insert_eq
    | rewrite lookup_delete_eq
    | rewrite lookup_insert_ne by congruence
    | rewrite lookup_delete_ne by congruence
    | match goal with H : _ !! _ = _ |- _ => rewrite H end
    | progress cbn [small_objects unions heap fst snd negb] ].

Ltac facts H :=
  lazymatch type of H with
  | view _ _ = Some (live_inline _) =>
      apply view_live_inline in H; destruct H as [? ?]
  | view _ _ = Some (live_heap _ _) =>
      apply view_live_heap in H; destruct H as (? & ? & ?)
  | view _ _ = Some empty =>
      apply view_empty in H; destruct H as [? ?]
  end.

Section Properties.
Context {R Args : Type}.
Implicit Types (m : memory R Args) (w : wrapper R Args)
  (s : state R Args) (F : Callable R Args).

Lemma fresh_block m : heap m !! fresh (dom (heap m)) = None.
Proof. apply not_elem_of_dom, is_fresh. Qed.

(** ** Construction *)

(** C1: the constructor from a callable [f] of type [F] selects heap mode
    exactly when [F] is nothrow move constructible and larger than
    [MAX_SIZE]; in every other case, and for a pointer to member, it sets
    the flag and constructs the adapter in the buffer. *)
Theorem mode_selection F (f : F) (callable : member R Args unit) this m :
  (exists m' s,
      function_from F f this m = Ok tt m' /\
      view m' this = Some s /\
      adapter s = Some (wrapper_function F (fst (move_constructor F f))) /\
      (mode_flag s = false <->
       is_nothrow_move_constructible F = true /\ size_of F > MAX_SIZE) /\
      (mode_flag s = false ->
       exists a, owned s = Some a /\ heap m !! a = None /\
                 unions m' !! this = Some (as_pointer (Some a))) /\
      (mode_flag s = true ->
       heap m' = heap m /\
       unions m' !! this =
         Some (in_buffer
                 (wrapper_function F (fst (move_constructor F f)))))) /\
  (exists m',
      function_member callable this m = Ok tt m' /\
      view m' this = Some (live_inline (wrapper_member callable)) /\
      heap m' = heap m).
Proof.
  split.
  - run. destruct (is_nothrow_move_constructible F) eqn:Hmove;
      [destruct (Z.gtb_spec (size_of F) MAX_SIZE) as [Hsize|Hsize]|]; cbn.
    + eexists _, (live_heap _ _). split; [reflexivity|].
      unfold view. maps.
      repeat split; try done; try lia; eauto using fresh_block.
    + eexists _, (live_inline _). split; [reflexivity|].
      unfold view. maps. repeat split; try done; lia.
    + eexists _, (live_inline _). split; [reflexivity|].
      unfold view. maps. repeat split; try done. intros [? _]. done.
  - run. eexists. split; [reflexivity|]. unfold view. maps. done.
Qed.


(** C9: a nothrow move constructible callable of exactly 128 bytes is
    constructed in the buffer; a container that comes out of the
    constructor in heap mode was given a callable of more than 128
    bytes. *)
Theorem boundary_size F (f : F) this m :
  is_nothrow_move_constructible F = true ->
  (size_of F = 128 ->
   exists m',
     function_from F f this m = Ok tt m' /\
     view m' this =
       Some (live_inline
               (wrapper_function F (fst (move_constructor F f)))) /\
     heap m' = heap m) /\
  (forall m' a w,
      function_from F f this m = Ok tt m' ->
      view m' this = Some (live_heap a w) ->
      size_of F > 128).
Proof.
  intros Hmove. run. rewrite Hmove. cbn [andb]. unfold MAX_SIZE. split.
  - intros ->. cbn. eexists. split; [reflexivity|].
    unfold view. maps. done.
  - intros m' a w.
    destruct (Z.gtb_spec (size_of F) 128) as [Hsize|Hsize]; [lia|].
    intros [= <-]. unfold view. maps. done.
Qed.

(** ** Boolean test and invocation *)

(** C5: on a well-formed container the call operator throws
    [bad_function_call] exactly when the boolean test is false, which is
    exactly when the container is empty; on a live container it returns
    what the stored adapter's [call] returns and keeps the adapter as the
    call left it; a default-constructed container tests false and throws
    when called. *)
Theorem invocation_on_empty m c s (args : Args) :
  view m c = Some s ->
  ((exists m', operator_call c args m = Throw m') <->
   operator_bool c m = Ok false m) /\
  (operator_bool c m = Ok false m <-> s = empty) /\
  (operator_bool c m = Ok true m <-> s <> empty) /\
  (forall w,
      adapter s = Some w ->
      exists m',
        operator_call c args m = Ok (fst (call w args)) m' /\
        small_objects m' = small_objects m /\
        (adapter <$> view m' c) = Some (Some (snd (call w args)))) /\
  (forall this m0,
      exists m1,
        function_default this m0 = Ok tt m1 /\
        view m1 this = Some empty /\
        operator_bool this m1 = Ok false m1 /\
        operator_call this args m1 = Throw m1).
Proof.
  intros Hview. split; [|split; [|split; [|split]]].
  - destruct s; facts Hview; run; maps;
      (split; [intros [? [=]]; done | intros [=]; eauto]).
  - destruct s; facts Hview; run; maps; done.
  - destruct s; facts Hview; run; maps; done.
  - intros w Hw.
    destruct s; facts Hview; simplify_eq/=; run; maps;
      (eexists; split; [reflexivity|]; split; [done|]);
      unfold view; maps; done.
  - intros this m0. run. eexists. split; [reflexivity|].
    unfold view. maps. done.
Qed.


(** ** Effect of the special member functions on well-formed containers *)

Lemma moved_to_faithful w : faithful_move w -> moved_to w = w.
Proof. destruct w as [T x|]; cbn; [intros ->|]; done. Qed.

Lemma copy_of_faithful w : faithful_copy w -> copy_of w = w.
Proof. destruct w as [T x|]; cbn; [intros ->|]; done. Qed.

Lemma transferred_faithful s : moves_faithfully s -> transferred s = s.
Proof.
  destruct s; cbn; try done. intros ?. by rewrite moved_to_faithful.
Qed.

Lemma transferred_mode s : mode_flag (transferred s) = mode_flag s.
Proof. by destruct s. Qed.

Lemma transferred_owned s : owned (transferred s) = owned s.
Proof. by destruct s. Qed.

Lemma owned_allocated m c s a :
  view m c = Some s -> owned s = Some a -> is_Some (heap m !! a).
Proof. destruct s; intros H [= <-]. facts H. eauto. Qed.

Lemma bind_ok {A B} (c : M R Args A) (k : A -> M R Args B) m a m' :
  c m = Ok a m' -> bind c k m = k a m'.
Proof. unfold bind. by intros ->. Qed.

Lemma view_same m m' d :
  same_object m m' d -> heap m' = heap m -> view m' d = view m d.
Proof. intros [Hflag Hunion] Hheap. unfold view. by rewrite Hflag, Hunion, Hheap. Qed.

Lemma view_released m m' d st sd :
  same_object m m' d ->
  heap m' = released st (heap m) ->
  view m d = Some sd ->
  separate st sd ->
  view m' d = Some sd.
Proof.
  intros [Hflag Hunion] Hheap Hview Hsep. unfold view.
  rewrite Hflag, Hunion, Hheap. clear Hflag Hunion Hheap. unfold released.
  destruct sd as [w|a w|]; facts Hview; maps; try done.
  unfold separate in Hsep.
  destruct (owned st) as [a'|]; cbn in Hsep; maps; done.
Qed.

(** The move constructor, for any state of the source. *)
Lemma function_move_spec m this other s :
  view m other = Some s ->
  this <> other ->
  exists m',
    function_move this other m = Ok tt m' /\
    view m' this = Some (transferred s) /\
    view m' other = Some empty /\
    heap m' = heap m /\
    (forall d, d <> this -> d <> other -> same_object m m' d).
Proof.
  intros Hview Hne.
  destruct s; facts Hview; run; maps;
    (destruct (decide (other = this)) as [|_]; [congruence|]); run; maps;
    (eexists; split; [reflexivity|]); unfold view, same_object; maps;
    repeat split; try done; by maps.
Qed.

(** [destruction()] of a well-formed container. *)
Lemma destruction_spec m this s :
  view m this = Some s ->
  exists m',
    destruction this m = Ok tt m' /\
    small_objects m' = small_objects m /\
    unions m' = delete this (unions m) /\
    heap m' = released s (heap m).
Proof.
  intros Hview. destruct s; facts Hview; run; maps; eauto.
Qed.

Lemma assign_move_unfold this other :
  @assign_move R Args this other =
  bind (destruction this) (fun _ => function_move this other).
Proof. reflexivity. Qed.

(** The move assignment operator, for any states of the two distinct
    containers. *)
Lemma assign_move_spec m this other st s :
  view m this = Some st ->
  view m other = Some s ->
  this <> other ->
  separate st s ->
  exists m',
    assign_move this other m = Ok tt m' /\
    view m' this = Some (transferred s) /\
    view m' other = Some empty /\
    heap m' = released st (heap m) /\
    (forall d, d <> this -> d <> other -> same_object m m' d).
Proof.
  intros Hthis Hother Hne Hsep.
  destruct (destruction_spec _ _ _ Hthis) as (m1 & Hrun & Hflags & Hunions & Hheap).
  assert (view m1 other = Some s) as Hother1.
  { apply (view_released m m1 other st s); try done.
    split; [by rewrite Hflags|]. rewrite Hunions. by maps. }
  destruct (function_move_spec _ this _ _ Hother1 Hne)
    as (m2 & Hrun2 & ? & ? & Hheap2 & Hframe).
  exists m2. rewrite assign_move_unfold, (bind_ok _ _ _ _ _ Hrun).
  repeat split; try done.
  - by rewrite Hheap2.
  - destruct (Hframe d) as [-> _]; try done. by rewrite Hflags.
  - destruct (Hframe d) as [_ ->]; try done. rewrite Hunions. by maps.
Qed.


Lemma local_variable_fresh m :
  let tmp := fresh (dom (small_objects m) ∪ dom (unions m)) in
  small_objects m !! tmp = None /\ unions m !! tmp = None.
Proof.
  intros tmp.
  pose proof (is_fresh (dom (small_objects m) ∪ dom (unions m))) as Hfresh.
  fold tmp in Hfresh. rewrite <- !not_elem_of_dom. set_solver.
Qed.

Lemma view_unallocated m c s :
  view m c = Some s -> is_Some (small_objects m !! c).
Proof. destruct s; intros H; facts H; eauto. Qed.

(** The end of the scope of a local container. *)
Lemma end_of_scope_spec m tmp s :
  view m tmp = Some s ->
  exists m',
    end_of_scope tmp m = Ok tt m' /\
    small_objects m' = delete tmp (small_objects m) /\
    unions m' = delete tmp (unions m) /\
    heap m' = released s (heap m).
Proof.
  intros Hview.
  destruct (destruction_spec _ _ _ Hview) as (m1 & Hrun & Hflags & Hunions & Hheap).
  unfold end_of_scope, function_destructor.
  rewrite (bind_ok _ _ _ _ _ Hrun). eexists. split; [reflexivity|].
  cbn. rewrite Hflags, Hunions, Hheap. repeat split.
  apply map_eq. intros i. destruct (decide (i = tmp)) as [->|]; by maps.
Qed.

(** [swap] of two distinct well-formed containers: each side takes over
    what the other held, the heap is untouched and so is every other
    object. *)
Lemma swap_spec m a b sa sb :
  view m a = Some sa ->
  view m b = Some sb ->
  a <> b ->
  exists m',
    swap a b m = Ok tt m' /\
    view m' a = Some (transferred (transferred sb)) /\
    view m' b = Some (transferred sa) /\
    heap m' = heap m /\
    (forall d, d <> a -> d <> b -> same_object m m' d).
Proof.
  intros Ha Hb Hne. unfold swap.
  destruct (local_variable_fresh m) as [Hfresh1 Hfresh2].
  set (tmp := fresh (dom (small_objects m) ∪ dom (unions m))) in *.
  assert (tmp <> a) as Hta.
  { intros ->. destruct (view_unallocated _ _ _ Ha). congruence. }
  assert (tmp <> b) as Htb.
  { intros ->. destruct (view_unallocated _ _ _ Hb). congruence. }
  change (bind local_variable ?k m) with (k tmp m). cbv beta.
  destruct (function_move_spec m tmp b sb Hb Htb)
    as (m1 & Hrun1 & Htmp1 & Hb1 & Hheap1 & Hframe1).
  rewrite (bind_ok _ _ _ _ _ Hrun1).
  assert (view m1 a = Some sa) as Ha1.
  { rewrite <- Ha. apply view_same; auto. }
  destruct (assign_move_spec m1 b a empty sa Hb1 Ha1) as
    (m2 & Hrun2 & Hb2 & Ha2 & Hheap2 & Hframe2); [done..|].
  rewrite (bind_ok _ _ _ _ _ Hrun2).
  assert (view m2 tmp = Some (transferred sb)) as Htmp2.
  { rewrite <- Htmp1. apply view_same; auto. }
  destruct (assign_move_spec m2 a tmp empty (transferred sb) Ha2 Htmp2) as
    (m3 & Hrun3 & Ha3 & Htmp3 & Hheap3 & Hframe3); [done..|].
  rewrite (bind_ok _ _ _ _ _ Hrun3).
  destruct (end_of_scope_spec m3 tmp empty Htmp3)
    as (m4 & Hrun4 & Hflags4 & Hunions4 & Hheap4).
  exists m4. split; [done|].
  assert (heap m4 = heap m) as Hheap.
  { rewrite Hheap4, Hheap3, Hheap2, Hheap1. done. }
  assert (forall d, d <> tmp -> same_object m3 m4 d) as Hframe4.
  { intros d ?. split; [rewrite Hflags4|rewrite Hunions4]; by maps. }
  split; [|split; [|split; [done|]]].
  - rewrite <- Ha3. apply view_same; auto.
  - rewrite <- Hb2.
    transitivity (view m3 b); apply view_same; auto.
  - intros d Hda Hdb. destruct (decide (d = tmp)) as [->|Hdt].
    + split; [rewrite Hflags4|rewrite Hunions4]; maps; done.
    + destruct (Hframe4 d Hdt) as [E4 F4].
      destruct (Hframe3 d) as [E3 F3]; [done..|].
      destruct (Hframe2 d) as [E2 F2]; [done..|].
      destruct (Hframe1 d) as [E1 F1]; [done..|].
      split; congruence.
Qed.


(** The call operator on a live container: the result is the adapter's,
    the adapter is updated in place, and no container that owns another
    heap block changes. *)
Lemma operator_call_spec m c s w (args : Args) :
  view m c = Some s ->
  adapter s = Some w ->
  exists m',
    operator_call c args m = Ok (fst (call w args)) m' /\
    view m' c = Some (with_adapter (snd (call w args)) s) /\
    (forall d sd,
        d <> c -> view m d = Some sd -> separate s sd ->
        view m' d = Some sd).
Proof.
  intros Hview Hw.
  destruct s as [w'|a w'|]; facts Hview; simplify_eq/=; run; maps;
    (eexists; split; [reflexivity|]); (split; [unfold view; by maps|]);
    intros d sd Hd Hsd Hsep; unfold view; maps;
    destruct sd; facts Hsd; maps; try done.
Qed.

(** The copy constructor. *)
Lemma function_copy_spec m this c s :
  view m c = Some s ->
  s <> empty ->
  this <> c ->
  exists m',
    function_copy this c m = Ok tt m' /\
    view m' this = Some (cloned (fresh (dom (heap m))) s) /\
    view m' c = Some s /\
    (forall d, d <> this -> same_object m m' d) /\
    (forall a, is_Some (heap m !! a) -> heap m' !! a = heap m !! a).
Proof.
  intros Hview Hlive Hne.
  pose proof (fresh_block m) as Hfresh.
  destruct s as [w|a w|]; [| |done]; facts Hview; run; maps;
    (eexists; split; [reflexivity|]); unfold view, same_object; maps.
  - repeat split; try done; by maps.
  - assert (fresh (dom (heap m)) <> a) by congruence.
    repeat split; maps; try done.
    intros a' [w' Hw']. assert (fresh (dom (heap m)) <> a') by congruence.
    by maps.
Qed.

Lemma function_copy_empty m this c :
  view m c = Some empty ->
  function_copy this c m = Undefined null_dereference.
Proof. intros Hview. facts Hview. run. by maps. Qed.


Lemma operator_call_returned m c s (args : Args) :
  view m c = Some s ->
  returned (operator_call c args m) =
  (fun w => fst (call w args)) <$> adapter s.
Proof.
  intros Hview. destruct (adapter s) as [w|] eqn:Hw.
  - destruct (operator_call_spec m c s w args Hview Hw) as (m' & -> & _).
    done.
  - destruct s; try done. facts Hview. run. by maps.
Qed.

Lemma empty_is_valid m c :
  view m c = Some empty -> valid_empty_container m c.
Proof.
  intros Hview. pose proof Hview as Hview'. facts Hview'.
  unfold valid_empty_container. repeat split; try done.
  - run. by maps.
  - run. by maps.
  - run. maps. eauto.
  - intros e se Hne Hse.
    destruct (assign_move_spec m c e empty se Hview Hse) as
      (m' & Hrun & ? & ? & ? & _); [done..|]. eauto.
Qed.

(** ** Move construction and move assignment *)

(** C4: moving from a live container [c], into a new container [c2] or by
    assignment into an existing container [d], leaves [c] testing false;
    the target has the mode flag that [c] had and returns on every
    argument what [c] would have returned. *)
Theorem move_transfers_callable m c c2 d s sd :
  view m c = Some s ->
  s <> empty ->
  moves_faithfully s ->
  c2 <> c ->
  view m d = Some sd ->
  d <> c ->
  separate sd s ->
  (exists m',
      function_move c2 c m = Ok tt m' /\
      operator_bool c m' = Ok false m' /\
      small_objects m' !! c2 = Some (mode_flag s) /\
      view m' c2 = Some s /\
      forall args : Args,
        is_Some (returned (operator_call c args m)) /\
        returned (operator_call c2 args m') =
        returned (operator_call c args m)) /\
  (exists m',
      assign_move d c m = Ok tt m' /\
      operator_bool c m' = Ok false m' /\
      small_objects m' !! d = Some (mode_flag s) /\
      view m' d = Some s /\
      forall args : Args,
        is_Some (returned (operator_call c args m)) /\
        returned (operator_call d args m') =
        returned (operator_call c args m)).
Proof.
  intros Hc Hlive Hfaithful Hc2 Hd Hdc Hsep.
  assert (forall args : Args, is_Some (returned (operator_call c args m)))
    as Hreturns.
  { intros args. rewrite (operator_call_returned m c s args Hc).
    destruct s; by eauto. }
  assert (forall (m' : memory R Args) t,
             view m' t = Some s -> small_objects m' !! t = Some (mode_flag s))
    as Hflag.
  { intros m' t Ht. destruct s; by facts Ht. }
  split.
  - destruct (function_move_spec m c2 c s Hc Hc2)
      as (m' & Hrun & Hc2' & Hc' & _).
    rewrite transferred_faithful in Hc2' by done.
    exists m'. repeat split; auto.
    + by apply empty_is_valid.
    + by rewrite (operator_call_returned m' c2 s args Hc2'),
        (operator_call_returned m c s args Hc).
  - destruct (assign_move_spec m d c sd s Hd Hc Hdc Hsep)
      as (m' & Hrun & Hd' & Hc' & _).
    rewrite transferred_faithful in Hd' by done.
    exists m'. repeat split; auto.
    + by apply empty_is_valid.
    + by rewrite (operator_call_returned m' d s args Hd'),
        (operator_call_returned m c s args Hc).
Qed.

(** C10: after a move construction from [c], and after a move assignment
    from [c] into another container, [c] has its flag false and a null
    pointer, whatever it held; it tests false, a call throws
    [bad_function_call], its destructor leaves the heap as it is, and it
    can be assigned to again. *)
Theorem moved_from_is_valid_empty m c c2 d s sd :
  view m c = Some s ->
  c2 <> c ->
  view m d = Some sd ->
  d <> c ->
  separate sd s ->
  (exists m',
      function_move c2 c m = Ok tt m' /\ valid_empty_container m' c) /\
  (exists m',
      assign_move d c m = Ok tt m' /\ valid_empty_container m' c).
Proof.
  intros Hc Hc2 Hd Hdc Hsep. split.
  - destruct (function_move_spec m c2 c s Hc Hc2)
      as (m' & Hrun & _ & Hc' & _).
    exists m'. split; [done|]. by apply empty_is_valid.
  - destruct (assign_move_spec m d c sd s Hd Hc Hdc Hsep)
      as (m' & Hrun & _ & Hc' & _).
    exists m'. split; [done|]. by apply empty_is_valid.
Qed.


(** ** Swap *)

Lemma view_same_object m m' c s :
  view m c = Some s -> view m' c = Some s -> same_object m m' c.
Proof.
  intros H H'. destruct s; facts H; facts H'; split; congruence.
Qed.

Lemma memory_eq m m' :
  (forall d, same_object m m' d) -> heap m' = heap m -> m' = m.
Proof.
  destruct m as [flags buffers blocks], m' as [flags' buffers' blocks'].
  unfold same_object. cbn. intros Hsame ->.
  f_equal; apply map_eq; intros d; by destruct (Hsame d).
Qed.

(** C8: for two distinct well-formed containers in any of the three
    states, one [swap] gives each side the state the other had (mode flag,
    liveness and adapter) and touches neither the heap nor any other
    object; a second [swap] gives back the memory the first one started
    from. *)
Theorem swap_involution m a b sa sb :
  view m a = Some sa ->
  view m b = Some sb ->
  a <> b ->
  moves_faithfully sa ->
  moves_faithfully sb ->
  exists m1,
    swap a b m = Ok tt m1 /\
    view m1 a = Some sb /\
    view m1 b = Some sa /\
    observable <$> view m1 a = observable <$> view m b /\
    observable <$> view m1 b = observable <$> view m a /\
    heap m1 = heap m /\
    (forall d, d <> a -> d <> b -> view m1 d = view m d) /\
    swap a b m1 = Ok tt m.
Proof.
  intros Ha Hb Hne Hfa Hfb.
  destruct (swap_spec m a b sa sb Ha Hb Hne)
    as (m1 & Hrun1 & Ha1 & Hb1 & Hheap1 & Hframe1).
  rewrite !(transferred_faithful sb) in Ha1 by done.
  rewrite (transferred_faithful sa) in Hb1 by done.
  destruct (swap_spec m1 a b sb sa Ha1 Hb1 Hne)
    as (m2 & Hrun2 & Ha2 & Hb2 & Hheap2 & Hframe2).
  rewrite !(transferred_faithful sa) in Ha2 by done.
  rewrite (transferred_faithful sb) in Hb2 by done.
  exists m1. repeat split; try done.
  - by rewrite Ha1, Hb.
  - by rewrite Hb1, Ha.
  - intros d ? ?. apply view_same; auto.
  - rewrite Hrun2. f_equal. apply memory_eq; [|congruence].
    intros d. destruct (decide (d = a)) as [->|]; [|destruct (decide (d = b)) as [->|]].
    + by apply (view_same_object m m2 a sa).
    + by apply (view_same_object m m2 b sb).
    + destruct (Hframe1 d) as [E1 F1]; [done..|].
      destruct (Hframe2 d) as [E2 F2]; [done..|].
      split; congruence.
Qed.

(** ** Copy construction *)

(** C6: a copy [c2] constructed from a live container [c] holds an equal
    adapter in the same mode, so both return the same result on the same
    arguments; a call on either one, which may change the state its
    callable captured, leaves the state of the other as it was. *)
Theorem copies_are_independent m c c2 s :
  view m c = Some s ->
  s <> empty ->
  copies_faithfully s ->
  c2 <> c ->
  exists m' s2,
    function_copy c2 c m = Ok tt m' /\
    view m' c = Some s /\
    view m' c2 = Some s2 /\
    observable s2 = observable s /\
    separate s s2 /\
    (forall args : Args,
        is_Some (returned (operator_call c args m')) /\
        returned (operator_call c2 args m') =
        returned (operator_call c args m')) /\
    (forall (args : Args) m1,
        final (operator_call c args m') = Some m1 ->
        view m1 c2 = Some s2) /\
    (forall (args : Args) m1,
        final (operator_call c2 args m') = Some m1 ->
        view m1 c = Some s).
Proof.
  intros Hc Hlive Hfaithful Hne.
  destruct (function_copy_spec m c2 c s Hc Hlive Hne)
    as (m' & Hrun & Hc2' & Hc' & _).
  set (s2 := cloned (fresh (dom (heap m))) s) in *.
  assert (observable s2 = observable s) as Hobs.
  { unfold s2, copies_faithfully in *.
    destruct s; cbn in *; try done; by rewrite copy_of_faithful. }
  assert (separate s s2) as Hsep.
  { unfold s2. destruct s as [|a w|]; try done. cbn.
    facts Hc. pose proof (fresh_block m). congruence. }
  assert (separate s2 s) as Hsep'.
  { unfold separate in *. destruct (owned s), (owned s2); auto. }
  assert (exists w, adapter s = Some w) as [w Hw].
  { destruct s; by eauto. }
  assert (adapter s2 = Some w) as Hw2.
  { injection Hobs as _ ->. done. }
  exists m', s2. repeat split; try done.
  - rewrite (operator_call_returned m' c s args Hc'), Hw. by eauto.
  - by rewrite (operator_call_returned m' c s args Hc'),
      (operator_call_returned m' c2 s2 args Hc2'), Hw, Hw2.
  - intros args m1.
    destruct (operator_call_spec m' c s w args Hc' Hw)
      as (m1' & -> & _ & Hframe).
    intros [= <-]. by apply Hframe.
  - intros args m1.
    destruct (operator_call_spec m' c2 s2 w args Hc2' Hw2)
      as (m1' & -> & _ & Hframe).
    intros [= <-]. apply Hframe; auto.
Qed.

(** C3: the copy constructor gives a container in the mode of a live
    source; on an empty source it calls [clone] through the null
    [big_pointer]. *)
Theorem copy_of_empty_is_undefined m c this s :
  view m c = Some s ->
  this <> c ->
  (s <> empty ->
   exists m' s',
     function_copy this c m = Ok tt m' /\
     view m' this = Some s' /\
     mode_flag s' = mode_flag s) /\
  (s = empty ->
   function_copy this c m = Undefined null_dereference).
Proof.
  intros Hc Hne. split.
  - intros Hlive.
    destruct (function_copy_spec m this c s Hc Hlive Hne)
      as (m' & Hrun & Hthis & _).
    exists m', (cloned (fresh (dom (heap m))) s).
    repeat split; try done. by destruct s.
  - intros ->. by apply function_copy_empty.
Qed.

(** ** Copy assignment *)

(** C2: the copy assignment operator destroys what [*this] holds before
    it copies [other]; when both are the same object the copy constructor
    then reads the destroyed object, whatever the container held. *)
Theorem self_assignment_is_undefined m c s :
  view m c = Some s ->
  assign_copy c c m = Undefined outside_lifetime.
Proof.
  intros Hc. destruct s; facts Hc; run; by maps.
Qed.


Lemma bind_undefined {A B} (c : M R Args A) (k : A -> M R Args B) m why :
  c m = Undefined why -> bind c k m = Undefined why.
Proof. unfold bind. by intros ->. Qed.


End Properties.

(** ** Pointers to member functions *)

(** C7: a container for the signature [R (Class)] constructed from a pointer
    to the member function [bar] of [Class], called with an instance,
    returns what [instance.bar()] returns; [bar] takes no parameters of its
    own, the only instantiation of [wrapper_member] the constructor makes. *)
Theorem member_pointer_call {R Class : Type} (bar : member R Class unit)
    (instance : Class) (this : nat) (m : memory R Class) :
  exists m' m'',
    function_member bar this m = Ok tt m' /\
    view m' this = Some (live_inline (wrapper_member bar)) /\
    operator_call this instance m' =
      Ok (fst (direct_invocation bar instance tt)) m'' /\
    view m'' this = Some (live_inline (wrapper_member bar)).
Proof.
  run. eexists _, _. split; [reflexivity|].
  unfold view. maps. split; [done|]. split; [reflexivity|]. by maps.
Qed.

(** * The theorems at concrete containers

    [three_containers] holds an inline container at 0 (a [counter] that
    captured 5), a heap container at 1 (a [large_counter] that captured 7,
    in block 0) and an empty container at 2. *)

Import Examples.

Example three_containers_views :
  view three_containers 0 = Some (live_inline (wrapper_function counter 5)) /\
  view three_containers 1 =
    Some (live_heap 0 (wrapper_function large_counter 7)) /\
  view three_containers 2 = Some empty.
Proof. repeat split. Qed.

Lemma boundary_size_witness :
  is_nothrow_move_constructible exact_fit = true /\
  size_of exact_fit = 128 /\
  exists m',
    function_from exact_fit 5 0 nothing = Ok tt m' /\
    view m' 0 = Some (live_inline (wrapper_function exact_fit 5)) /\
    heap m' = heap nothing.
Proof.
  split; [reflexivity|]. split; [reflexivity|].
  exact (proj1 (boundary_size exact_fit 5 0 nothing eq_refl) eq_refl).
Defined.

Lemma invocation_on_empty_witness :
  view three_containers 2 = Some empty /\
  ((exists m', operator_call 2 3 three_containers = Throw m') <->
   operator_bool 2 three_containers = Ok false three_containers).
Proof.
  split; [reflexivity|].
  exact (proj1 (invocation_on_empty three_containers 2 empty 3 eq_refl)).
Defined.

Lemma move_transfers_callable_witness :
  view three_containers 1 =
    Some (live_heap 0 (wrapper_function large_counter 7)) /\
  view three_containers 0 = Some (live_inline (wrapper_function counter 5)) /\
  exists m',
    assign_move 0 1 three_containers = Ok tt m' /\
    operator_bool 1 m' = Ok false m' /\
    small_objects m' !! 0%nat = Some false /\
    view m' 0 = Some (live_heap 0 (wrapper_function large_counter 7)) /\
    forall args : Z,
      is_Some (returned (operator_call 1 args three_containers)) /\
      returned (operator_call 0 args m') =
      returned (operator_call 1 args three_containers).
Proof.
  split; [reflexivity|]. split; [reflexivity|].
  refine (proj2 (move_transfers_callable three_containers 1 3 0
                   (live_heap 0 (wrapper_function large_counter 7))
                   (live_inline (wrapper_function counter 5))
                   eq_refl _ _ _ eq_refl _ _)).
  - discriminate.
  - intros x. reflexivity.
  - lia.
  - lia.
  - exact I.
Defined.

Lemma moved_from_is_valid_empty_witness :
  view three_containers 0 = Some (live_inline (wrapper_function counter 5)) /\
  view three_containers 1 =
    Some (live_heap 0 (wrapper_function large_counter 7)) /\
  exists m',
    function_move 3 0 three_containers = Ok tt m' /\
    valid_empty_container m' 0.
Proof.
  split; [reflexivity|]. split; [reflexivity|].
  refine (proj1 (moved_from_is_valid_empty three_containers 0 3 1
                   (live_inline (wrapper_function counter 5))
                   (live_heap 0 (wrapper_function large_counter 7))
                   eq_refl _ eq_refl _ _)).
  - lia.
  - lia.
  - exact I.
Defined.

Lemma swap_involution_witness :
  view three_containers 0 = Some (live_inline (wrapper_function counter 5)) /\
  view three_containers 1 =
    Some (live_heap 0 (wrapper_function large_counter 7)) /\
  exists m1,
    swap 0 1 three_containers = Ok tt m1 /\
    view m1 0 = Some (live_heap 0 (wrapper_function large_counter 7)) /\
    view m1 1 = Some (live_inline (wrapper_function counter 5)) /\
    observable <$> view m1 0 = observable <$> view three_containers 1 /\
    observable <$> view m1 1 = observable <$> view three_containers 0 /\
    heap m1 = heap three_containers /\
    (forall d : nat, d <> 0%nat -> d <> 1%nat ->
                     view m1 d = view three_containers d) /\
    swap 0 1 m1 = Ok tt three_containers.
Proof.
  split; [reflexivity|]. split; [reflexivity|].
  refine (swap_involution three_containers 0 1
            (live_inline (wrapper_function counter 5))
            (live_heap 0 (wrapper_function large_counter 7))
            eq_refl eq_refl _ _ _).
  - lia.
  - intros x. reflexivity.
  - intros x. reflexivity.
Defined.

Lemma copies_are_independent_witness :
  view three_containers 1 =
    Some (live_heap 0 (wrapper_function large_counter 7)) /\
  exists m' s2,
    function_copy 3 1 three_containers = Ok tt m' /\
    view m' 1 = Some (live_heap 0 (wrapper_function large_counter 7)) /\
    view m' 3 = Some s2 /\
    observable s2 =
      observable (live_heap 0 (wrapper_function large_counter 7)) /\
    separate (live_heap 0 (wrapper_function large_counter 7)) s2 /\
    (forall args : Z,
        is_Some (returned (operator_call 1 args m')) /\
        returned (operator_call 3 args m') =
        returned (operator_call 1 args m')) /\
    (forall (args : Z) m1,
        final (operator_call 1 args m') = Some m1 -> view m1 3 = Some s2) /\
    (forall (args : Z) m1,
        final (operator_call 3 args m') = Some m1 ->
        view m1 1 = Some (live_heap 0 (wrapper_function large_counter 7))).
Proof.
  split; [reflexivity|].
  refine (copies_are_independent three_containers 1 3
            (live_heap 0 (wrapper_function large_counter 7))
            eq_refl _ _ _).
  - discriminate.
  - intros x. reflexivity.
  - lia.
Defined.

Lemma copy_of_empty_is_undefined_witness :
  view three_containers 2 = Some empty /\
  function_copy 3 2 three_containers = Undefined null_dereference.
Proof.
  split; [reflexivity|].
  refine (proj2 (copy_of_empty_is_undefined three_containers 2 3 empty
                   eq_refl _) eq_refl).
  lia.
Defined.

Lemma self_assignment_is_undefined_witness :
  view three_containers 0 = Some (live_inline (wrapper_function counter 5)) /\
  assign_copy 0 0 three_containers = Undefined outside_lifetime.
Proof.
  split; [reflexivity|].
  exact (self_assignment_is_undefined three_containers 0
           (live_inline (wrapper_function counter 5)) eq_refl).
Defined.

(** ** Scenarios of the design, run on the model *)

(** A closure that captured [x = 5]: [c(3)] is 8; after a copy [d] of [c]
    and a call that advanced the counter in [c], [c(3)] is 9 and [d(3)] is
    still 8. *)
Example captured_state_is_copied :
  let m0 := after (function_from counter 5 0) nothing in
  let m1 := after (function_copy 1 0) m0 in
  let m2 := after (fun m => match operator_call 0 3 m1 with
                            | Ok _ m' => Ok tt m'
                            | Throw m' => Throw m'
                            | Undefined why => Undefined why
                            end) m1 in
  returned (operator_call 0 3 m0) = Some 8 /\
  returned (operator_call 0 3 m2) = Some 9 /\
  returned (operator_call 1 3 m2) = Some 8.
Proof. repeat split. Qed.

(** [Foo{21}.bar()] through a container for [long (Foo)]. *)
Example member_pointer_scenario :
  let m0 := after (function_member Foo_bar 0) nothing in
  returned (operator_call 0 21 m0) = Some 42 /\
  fst (direct_invocation Foo_bar 21 tt) = 42.
Proof. repeat split. Qed.

(** Move construction from an empty container: both are empty and a call
    on either throws. *)
Example move_from_empty_scenario :
  let m0 := after (function_move 3 2) three_containers in
  view m0 2 = Some empty /\ view m0 3 = Some empty /\
  operator_call 2 1 m0 = Throw m0 /\ operator_call 3 1 m0 = Throw m0.
Proof. repeat split. Qed.

(** Self-assignment and copy construction from an empty container, in each
    state a container can be in. *)
Example copy_defects_evaluated :
  assign_copy 0 0 three_containers = Undefined outside_lifetime /\
  assign_copy 1 1 three_containers = Undefined outside_lifetime /\
  assign_copy 2 2 three_containers = Undefined outside_lifetime /\
  (bind (function_default 0) (fun _ => function_copy 1 0)) nothing =
    Undefined null_dereference.
Proof. repeat split. Qed.

(** * Ownership: what the operations keep consistent *)

Section Ownership.
Context {R Args : Type}.
Implicit Types (m : memory R Args) (w : wrapper R Args)
  (s : state R Args) (F : Callable R Args).

Lemma separate_sym s1 s2 : separate s1 s2 -> separate s2 s1.
Proof. unfold separate. destruct (owned s1), (owned s2); auto. Qed.

Lemma separate_owned s1 s2 a :
  separate s1 s2 -> owned s1 = Some a -> owned s2 = Some a -> False.
Proof. unfold separate. intros H H1 H2. rewrite H1, H2 in H. by apply H. Qed.

Lemma separate_intro s1 s2 :
  (forall a, owned s1 = Some a -> owned s2 = Some a -> False) ->
  separate s1 s2.
Proof.
  unfold separate. destruct (owned s1) as [a1|], (owned s2) as [a2|]; auto.
  intros H ->. by apply (H a2).
Qed.

Lemma view_allocated m d s : view m d = Some s -> allocated m d.
Proof. intros H. left. by apply (view_unallocated m d s). Qed.

Lemma raw_storage_view m d : raw_storage m d -> view m d = None.
Proof. intros [H _]. unfold view. by rewrite H. Qed.

Lemma same_object_allocated m m' d :
  same_object m m' d -> allocated m' d -> allocated m d.
Proof. intros [H1 H2]. unfold allocated. by rewrite H1, H2. Qed.

(** The scheme behind every preservation proof: the objects outside [P]
    are untouched and keep their state, the objects in [P] are well formed
    and own blocks of their own, and every block has an owner. *)
Lemma consistent_step m m' (P : nat -> Prop) `{!forall d, Decision (P d)} :
  consistent m ->
  (forall d, ~ P d -> same_object m m' d) ->
  (forall d sd, ~ P d -> view m d = Some sd -> view m' d = Some sd) ->
  (forall d, P d -> allocated m' d -> is_Some (view m' d)) ->
  (forall d e s' se,
      P d -> e <> d -> view m' d = Some s' -> view m' e = Some se ->
      (P e \/ (~ P e /\ view m e = Some se)) ->
      separate s' se) ->
  no_leak m' ->
  consistent m'.
Proof.
  intros (Hwf & Hexcl & _) Hsame Hkeep Hchanged Hown Hleak.
  assert (forall d sd, ~ P d -> view m' d = Some sd -> view m d = Some sd)
    as Hback.
  { intros d sd HP Hd.
    destruct (Hwf d) as [sd0 Hd0].
    { eapply same_object_allocated; [by apply Hsame|].
      by apply (view_allocated m' d sd). }
    rewrite Hd0. f_equal. apply (Hkeep d sd0 HP) in Hd0. congruence. }
  split; [|split; [|done]].
  - intros d Hd. destruct (decide (P d)) as [HP|HP]; [by apply Hchanged|].
    destruct (Hwf d) as [sd Hsd]; [by eapply same_object_allocated; eauto|].
    exists sd. by apply Hkeep.
  - intros c1 c2 s1 s2 Hne H1 H2.
    destruct (decide (P c1)) as [HP1|HP1], (decide (P c2)) as [HP2|HP2].
    + apply (Hown c1 c2); auto.
    + apply (Hown c1 c2); auto.
    + apply separate_sym, (Hown c2 c1); auto.
    + apply (Hexcl c1 c2); auto.
Qed.

Lemma owned_of_view m c s a :
  view m c = Some s -> owned s = Some a ->
  exists w, s = live_heap a w /\ heap m !! a = Some w.
Proof.
  destruct s as [|a' w|]; intros H [= <-]. facts H. eauto.
Qed.

Lemma extended_other s w (h : gmap nat (wrapper R Args)) a :
  owned s <> Some a -> extended s w h !! a = h !! a.
Proof.
  unfold extended. destruct (owned s) as [a'|]; [|done].
  intros Hne. apply lookup_insert_ne. congruence.
Qed.

(** A container keeps its state when its object is untouched and the only
    block that changed belongs to a container it shares nothing with. *)
Lemma view_extended m m' d s sd :
  same_object m m' d ->
  (forall a, owned s <> Some a -> heap m' !! a = heap m !! a) ->
  separate s sd ->
  view m d = Some sd ->
  view m' d = Some sd.
Proof.
  intros [Hflag Hunion] Hheap Hsep Hview. unfold view.
  rewrite Hflag, Hunion. clear Hflag Hunion.
  destruct sd as [w'|a w'|]; facts Hview; maps; try done.
  rewrite Hheap; [by maps|].
  intros Ha. by apply (separate_owned s (live_heap a w') a).
Qed.

(** One container is constructed in raw storage, or has its adapter
    updated in place; a block it owns is new or was its own. *)
Lemma consistent_update m m' c s :
  consistent m ->
  (raw_storage m c /\ forall a, owned s = Some a -> heap m !! a = None) \/
  (exists s0, view m c = Some s0 /\ owned s0 = owned s) ->
  (forall d, d <> c -> same_object m m' d) ->
  view m' c = Some s ->
  (forall a, owned s <> Some a -> heap m' !! a = heap m !! a) ->
  consistent m'.
Proof.
  intros Hm Hc Hsame Hview Hheap.
  pose proof Hm as (Hwf & Hexcl & Hleak).
  assert (forall d sd, d <> c -> view m d = Some sd -> separate s sd) as Hsep.
  { intros d sd Hd Hsd. apply separate_intro. intros a Ha Ha'.
    destruct Hc as [[_ Hnew]|(s0 & Hs0 & Hown)].
    - destruct (owned_allocated m d sd a Hsd Ha') as [? Hin].
      rewrite (Hnew a Ha) in Hin. done.
    - apply (separate_owned s0 sd a); [|congruence|done].
      by apply (Hexcl c d). }
  apply (consistent_step m m' (fun d => d = c)); try done.
  - intros d sd Hd Hsd. apply (view_extended m m' d s sd); eauto.
  - intros d -> _. by eauto.
  - intros d e s' se -> He Hs' Hse [->|[_ Hse']]; [done|].
    assert (s' = s) as -> by congruence. by apply (Hsep e).
  - intros a Ha.
    destruct (decide (owned s = Some a)) as [Hown|Hown].
    { destruct (owned_of_view m' c s a Hview Hown) as (w' & -> & _).
      by eauto. }
    rewrite (Hheap a Hown) in Ha.
    destruct (Hleak a Ha) as (c0 & w0 & Hc0).
    destruct (decide (c0 = c)) as [->|Hc0c].
    + destruct Hc as [[Hraw _]|(s0 & Hs0 & Hown0)].
      * rewrite (raw_storage_view m c Hraw) in Hc0. done.
      * rewrite Hs0 in Hc0. injection Hc0 as ->.
        cbn in Hown0. congruence.
    + exists c0, w0. apply (view_extended m m' c0 s); eauto.
Qed.

(** One container takes over what another held, after giving up what it
    held itself. *)
Lemma consistent_transfer m m' this other st s :
  consistent m ->
  (raw_storage m this /\ st = empty) \/ view m this = Some st ->
  view m other = Some s ->
  this <> other ->
  (forall d, d <> this -> d <> other -> same_object m m' d) ->
  view m' this = Some (transferred s) ->
  view m' other = Some empty ->
  heap m' = released st (heap m) ->
  consistent m'.
Proof.
  intros Hm Hthis Hother Hne Hsame Hthis' Hother' Hheap.
  pose proof Hm as (Hwf & Hexcl & Hleak).
  assert (forall d sd, d <> this -> view m d = Some sd -> separate st sd)
    as Hsep.
  { intros d sd Hd Hsd. destruct Hthis as [[_ ->]|Hst]; [done|].
    by apply (Hexcl this d). }
  assert (forall d sd, d <> this -> d <> other ->
                       view m d = Some sd -> view m' d = Some sd) as Hkeep.
  { intros d sd Hd Hd' Hsd.
    apply (view_released m m' d st sd); auto. by apply (Hsep d). }
  apply (consistent_step m m' (fun d => d = this \/ d = other)); try done.
  - intros d Hd. apply Hsame; tauto.
  - intros d sd Hd Hsd. apply Hkeep; tauto.
  - intros d [->| ->] _; by eauto.
  - intros d e s' se [->| ->] He Hs' Hse HPe.
    + assert (s' = transferred s) as -> by congruence.
      apply separate_intro. intros a Ha Ha'.
      rewrite transferred_owned in Ha.
      destruct HPe as [[->| ->]|[HPe Hse']]; [done| |].
      * assert (se = empty) as -> by congruence. done.
      * apply (separate_owned s se a); [|done..].
        apply (Hexcl other e); [|done..]. intros <-. tauto.
    + assert (s' = empty) as -> by congruence.
      apply separate_intro. intros a Ha. done.
  - intros a Ha. rewrite Hheap in Ha.
    assert (is_Some (heap m !! a) /\ owned st <> Some a) as [Ha' Hst].
    { unfold released in Ha. destruct (owned st) as [a0|].
      - apply lookup_delete_is_Some in Ha as [??]. split; [done|congruence].
      - done. }
    destruct (Hleak a Ha') as (c0 & w0 & Hc0).
    destruct (decide (c0 = this)) as [->|Hc0t].
    { destruct Hthis as [[Hraw _]|Hst'].
      - rewrite (raw_storage_view m this Hraw) in Hc0. done.
      - rewrite Hst' in Hc0. injection Hc0 as ->. done. }
    destruct (decide (c0 = other)) as [->|Hc0o].
    { rewrite Hother in Hc0. injection Hc0 as ->. by eauto. }
    exists c0, w0. by apply Hkeep.
Qed.

(** A container is destroyed and its storage given back. *)
Lemma consistent_release m m' c s :
  consistent m ->
  view m c = Some s ->
  small_objects m' = delete c (small_objects m) ->
  unions m' = delete c (unions m) ->
  heap m' = released s (heap m) ->
  consistent m'.
Proof.
  intros Hm Hc Hflags Hunions Hheap.
  pose proof Hm as (Hwf & Hexcl & Hleak).
  assert (forall d, d <> c -> same_object m m' d) as Hsame.
  { intros d Hd. split; [rewrite Hflags|rewrite Hunions]; by maps. }
  assert (forall d sd, d <> c -> view m d = Some sd -> view m' d = Some sd)
    as Hkeep.
  { intros d sd Hd Hsd. apply (view_released m m' d s sd); auto.
    by apply (Hexcl c d). }
  assert (view m' c = None) as Hgone.
  { unfold view. rewrite Hflags. by maps. }
  apply (consistent_step m m' (fun d => d = c)); try done.
  - intros d -> [[? H]|[? H]]; [rewrite Hflags in H|rewrite Hunions in H];
      by rewrite lookup_delete_eq in H.
  - intros d e s' se -> _ Hs'. congruence.
  - intros a Ha. rewrite Hheap in Ha.
    assert (is_Some (heap m !! a) /\ owned s <> Some a) as [Ha' Hs].
    { unfold released in Ha. destruct (owned s) as [a0|].
      - apply lookup_delete_is_Some in Ha as [??]. split; [done|congruence].
      - done. }
    destruct (Hleak a Ha') as (c0 & w0 & Hc0).
    destruct (decide (c0 = c)) as [->|Hc0c].
    { rewrite Hc in Hc0. injection Hc0 as ->. done. }
    exists c0, w0. by apply Hkeep.
Qed.

(** Two containers exchange what they hold. *)
Lemma consistent_exchange m m' a b sa sb sa' sb' :
  consistent m ->
  view m a = Some sa ->
  view m b = Some sb ->
  a <> b ->
  (forall d, d <> a -> d <> b -> same_object m m' d) ->
  view m' a = Some sb' -> owned sb' = owned sb -> mode_flag sb' = mode_flag sb ->
  view m' b = Some sa' -> owned sa' = owned sa -> mode_flag sa' = mode_flag sa ->
  heap m' = heap m ->
  consistent m'.
Proof.
  intros Hm Ha Hb Hne Hsame Ha' Hob Hfb Hb' Hoa Hfa Hheap.
  pose proof Hm as (Hwf & Hexcl & Hleak).
  assert (forall d sd, d <> a -> d <> b ->
                       view m d = Some sd -> view m' d = Some sd) as Hkeep.
  { intros d sd Hd Hd' Hsd. rewrite <- Hsd. apply view_same; auto. }
  apply (consistent_step m m' (fun d => d = a \/ d = b)); try done.
  - intros d Hd. apply Hsame; tauto.
  - intros d sd Hd Hsd. apply Hkeep; tauto.
  - intros d [->| ->] _; by eauto.
  - intros d e s' se [->| ->] He Hs' Hse HPe.
    + assert (s' = sb') as -> by congruence.
      apply separate_intro. intros x Hx Hx'. rewrite Hob in Hx.
      destruct HPe as [[->| ->]|[HPe Hse']]; [done| |].
      * assert (se = sa') as -> by congruence. rewrite Hoa in Hx'.
        apply (separate_owned sa sb x); [|done..]. by apply (Hexcl a b).
      * apply (separate_owned sb se x); [|done..].
        apply (Hexcl b e); [|done..]. intros <-. tauto.
    + assert (s' = sa') as -> by congruence.
      apply separate_intro. intros x Hx Hx'. rewrite Hoa in Hx.
      destruct HPe as [[->| ->]|[HPe Hse']]; [|done|].
      * assert (se = sb') as -> by congruence. rewrite Hob in Hx'.
        apply (separate_owned sa sb x); [|done..]. by apply (Hexcl a b).
      * apply (separate_owned sa se x); [|done..].
        apply (Hexcl a e); [|done..]. intros <-. tauto.
  - intros x Hx. rewrite Hheap in Hx.
    destruct (Hleak x Hx) as (c0 & w0 & Hc0).
    assert (forall s s' c', view m' c' = Some s' -> owned s' = owned s ->
                            s = live_heap x w0 ->
                            exists c w, view m' c = Some (live_heap x w))
      as Hmoved.
    { intros s s' c' Hc' Ho ->. cbn in Ho.
      destruct (owned_of_view m' c' s' x Hc' Ho) as (w' & -> & _). eauto. }
    destruct (decide (c0 = a)) as [->|Hc0a].
    { apply (Hmoved sa sa' b); congruence. }
    destruct (decide (c0 = b)) as [->|Hc0b].
    { apply (Hmoved sb sb' a); congruence. }
    exists c0, w0. by apply Hkeep.
Qed.

(** *** What each operation does to the memory *)

Lemma function_nullptr_effect m this :
  exists m',
    function_nullptr this m = Ok tt m' /\
    view m' this = Some empty /\
    (forall d, d <> this -> same_object m m' d) /\
    heap m' = heap m.
Proof.
  run. eexists. split; [reflexivity|]. unfold view, same_object. maps.
  repeat split; by maps.
Qed.


Lemma function_from_effect F (f : F) m this :
  exists m' s,
    function_from F f this m = Ok tt m' /\
    view m' this = Some s /\
    adapter s = Some (wrapper_function F (fst (move_constructor F f))) /\
    (mode_flag s = false <->
     is_nothrow_move_constructible F = true /\ size_of F > MAX_SIZE) /\
    (forall d, d <> this -> same_object m m' d) /\
    heap m' =
      extended s (wrapper_function F (fst (move_constructor F f))) (heap m) /\
    (forall a, owned s = Some a -> heap m !! a = None).
Proof.
  pose proof (fresh_block m) as Hfresh. run.
  destruct (is_nothrow_move_constructible F) eqn:Hmove;
    [destruct (Z.gtb_spec (size_of F) MAX_SIZE) as [Hsize|Hsize]|]; cbn.
  - eexists _, (live_heap _ _). split; [reflexivity|].
    unfold view, same_object. maps.
    repeat split; try done; try lia; try by maps. by intros a [= <-].
  - eexists _, (live_inline _). split; [reflexivity|].
    unfold view, same_object. maps.
    repeat split; try done; try lia; by maps.
  - eexists _, (live_inline _). split; [reflexivity|].
    unfold view, same_object. maps.
    repeat split; try done; try by maps. by intros [? _].
Qed.

Lemma function_copy_effect m this c s w :
  view m c = Some s ->
  adapter s = Some w ->
  this <> c ->
  exists m',
    function_copy this c m = Ok tt m' /\
    view m' this = Some (cloned (fresh (dom (heap m))) s) /\
    (forall d, d <> this -> same_object m m' d) /\
    heap m' =
      extended (cloned (fresh (dom (heap m))) s) (copy_of w) (heap m).
Proof.
  intros Hview Hw Hne.
  pose proof (fresh_block m) as Hfresh.
  destruct s as [w'|a w'|]; simplify_eq/=; facts Hview; run; maps;
    (eexists; split; [reflexivity|]); unfold view, same_object; maps;
    repeat split; by maps.
Qed.

Lemma operator_call_effect m c s w (args : Args) :
  view m c = Some s ->
  adapter s = Some w ->
  exists m',
    operator_call c args m = Ok (fst (call w args)) m' /\
    view m' c = Some (with_adapter (snd (call w args)) s) /\
    (forall d, d <> c -> same_object m m' d) /\
    heap m' = extended s (snd (call w args)) (heap m).
Proof.
  intros Hview Hw.
  destruct s as [w'|a w'|]; simplify_eq/=; facts Hview; run; maps;
    (eexists; split; [reflexivity|]); unfold view, same_object; maps;
    repeat split; by maps.
Qed.

Lemma with_adapter_owned w s : owned (with_adapter w s) = owned s.
Proof. by destruct s. Qed.

Lemma cloned_owned_fresh m s x :
  owned (cloned (fresh (dom (heap m))) s) = Some x -> heap m !! x = None.
Proof. destruct s; intros [= <-]. apply fresh_block. Qed.

(** *** Consistency after each operation *)

Lemma raw_storage_distinct m this c s :
  raw_storage m this -> view m c = Some s -> this <> c.
Proof.
  intros Hraw Hc ->. rewrite (raw_storage_view m c Hraw) in Hc. done.
Qed.

Lemma function_nullptr_consistent m this m' :
  consistent m -> raw_storage m this ->
  function_nullptr this m = Ok tt m' ->
  consistent m'.
Proof.
  intros Hm Hraw Hrun.
  destruct (function_nullptr_effect m this)
    as (m0 & Hrun0 & Hview & Hsame & Hheap).
  assert (m0 = m') as -> by congruence.
  apply (consistent_update m m' this empty); auto.
  - left. split; [done|]. by intros a [=].
  - intros a _. by rewrite Hheap.
Qed.


Lemma function_from_consistent F (f : F) m this m' :
  consistent m -> raw_storage m this ->
  function_from F f this m = Ok tt m' ->
  consistent m'.
Proof.
  intros Hm Hraw Hrun.
  destruct (function_from_effect F f m this)
    as (m0 & s & Hrun0 & Hview & _ & _ & Hsame & Hheap & Hnew).
  assert (m0 = m') as -> by congruence.
  apply (consistent_update m m' this s); auto.
  intros a Ha. rewrite Hheap. by apply extended_other.
Qed.

Lemma function_copy_consistent m this c s m' :
  consistent m -> raw_storage m this ->
  view m c = Some s -> s <> empty ->
  function_copy this c m = Ok tt m' ->
  consistent m'.
Proof.
  intros Hm Hraw Hc Hlive Hrun.
  assert (exists w, adapter s = Some w) as [w Hw] by (destruct s; by eauto).
  destruct (function_copy_effect m this c s w Hc Hw)
    as (m0 & Hrun0 & Hview & Hsame & Hheap).
  { by apply (raw_storage_distinct m this c s). }
  assert (m0 = m') as -> by congruence.
  apply (consistent_update m m' this (cloned (fresh (dom (heap m))) s)); auto.
  - left. split; [done|]. apply cloned_owned_fresh.
  - intros a Ha. rewrite Hheap. by apply extended_other.
Qed.

Lemma function_move_consistent m this c s m' :
  consistent m -> raw_storage m this ->
  view m c = Some s ->
  function_move this c m = Ok tt m' ->
  consistent m'.
Proof.
  intros Hm Hraw Hc Hrun.
  destruct (function_move_spec m this c s Hc)
    as (m0 & Hrun0 & Hthis & Hc' & Hheap & Hsame).
  { by apply (raw_storage_distinct m this c s). }
  assert (m0 = m') as -> by congruence.
  apply (consistent_transfer m m' this c empty s); auto.
  by apply (raw_storage_distinct m this c s).
Qed.

Lemma assign_move_consistent m this other st s m' :
  consistent m ->
  view m this = Some st -> view m other = Some s -> this <> other ->
  assign_move this other m = Ok tt m' ->
  consistent m'.
Proof.
  intros Hm Hthis Hother Hne Hrun.
  destruct (assign_move_spec m this other st s Hthis Hother Hne)
    as (m0 & Hrun0 & Hthis' & Hother' & Hheap & Hsame).
  { destruct Hm as (_ & Hexcl & _). by apply (Hexcl this other). }
  assert (m0 = m') as -> by congruence.
  apply (consistent_transfer m m' this other st s); auto.
Qed.

Lemma end_of_scope_consistent m c s m' :
  consistent m -> view m c = Some s ->
  end_of_scope c m = Ok tt m' ->
  consistent m'.
Proof.
  intros Hm Hc Hrun.
  destruct (end_of_scope_spec m c s Hc)
    as (m0 & Hrun0 & Hflags & Hunions & Hheap).
  assert (m0 = m') as -> by congruence.
  by apply (consistent_release m m' c s).
Qed.

Lemma operator_call_consistent m c s (args : Args) m' :
  consistent m -> view m c = Some s ->
  final (operator_call c args m) = Some m' ->
  consistent m'.
Proof.
  intros Hm Hc Hrun. destruct (adapter s) as [w|] eqn:Hw.
  - destruct (operator_call_effect m c s w args Hc Hw)
      as (m0 & Hrun0 & Hview & Hsame & Hheap).
    rewrite Hrun0 in Hrun. injection Hrun as ->.
    apply (consistent_update m m' c (with_adapter (snd (call w args)) s));
      auto.
    + right. exists s. by rewrite with_adapter_owned.
    + intros a Ha. rewrite Hheap. apply extended_other.
      by rewrite with_adapter_owned in Ha.
  - destruct s; try done. facts Hc. revert Hrun. run. maps.
    by intros [= <-].
Qed.

Lemma swap_consistent m a b sa sb m' :
  consistent m ->
  view m a = Some sa -> view m b = Some sb -> a <> b ->
  swap a b m = Ok tt m' ->
  consistent m'.
Proof.
  intros Hm Ha Hb Hne Hrun.
  destruct (swap_spec m a b sa sb Ha Hb Hne)
    as (m0 & Hrun0 & Ha' & Hb' & Hheap & Hsame).
  assert (m0 = m') as -> by congruence.
  apply (consistent_exchange m m' a b sa sb
           (transferred sa) (transferred (transferred sb))); auto;
    by rewrite ?transferred_owned, ?transferred_mode.
Qed.

(** ** Contracts of the operations on a consistent memory *)


(** X2: a container constructed from a callable [f] and then called
    returns what the stored callable, move constructed once from [f],
    returns on the same arguments, in inline and in heap mode, and keeps
    the callable as the call left it. *)
Theorem construct_then_call F (f : F) (args : Args) m this :
  exists m1 m2 s,
    function_from F f this m = Ok tt m1 /\
    operator_call this args m1 =
      Ok (fst (invoke F (fst (move_constructor F f)) args)) m2 /\
    view m2 this = Some s /\
    adapter s =
      Some (wrapper_function F
              (snd (invoke F (fst (move_constructor F f)) args))).
Proof.
  destruct (function_from_effect F f m this)
    as (m1 & s & Hrun & Hview & Hadapter & _).
  destruct (operator_call_effect m1 this s _ args Hview Hadapter)
    as (m2 & Hcall & Hview2 & _).
  exists m1, m2, (with_adapter
                    (snd (call (wrapper_function F
                                  (fst (move_constructor F f))) args)) s).
  cbn in Hcall, Hview2 |- *.
  destruct (invoke F (fst (move_constructor F f)) args) as [r f'] eqn:Hinvoke.
  split_and!; try done. destruct s; by simplify_eq/=.
Qed.

(** X4: copy construction from a live container runs the callable's copy
    constructor once; an inline source leaves the heap as it is, a heap
    source adds exactly one block that was not in use; the source keeps
    its state and the memory stays consistent. *)
Theorem copy_construction_effect m this c s w :
  consistent m ->
  raw_storage m this ->
  view m c = Some s ->
  adapter s = Some w ->
  exists m',
    function_copy this c m = Ok tt m' /\
    view m' this = Some (cloned (fresh (dom (heap m))) s) /\
    adapter (cloned (fresh (dom (heap m))) s) = Some (copy_of w) /\
    view m' c = Some s /\
    (mode_flag s = true -> heap m' = heap m) /\
    (mode_flag s = false ->
     heap m !! fresh (dom (heap m)) = None /\
     heap m' = <[fresh (dom (heap m)) := copy_of w]> (heap m)) /\
    consistent m'.
Proof.
  intros Hm Hraw Hc Hw.
  pose proof (raw_storage_distinct m this c s Hraw Hc) as Hne.
  assert (s <> empty) as Hlive by (by destruct s).
  destruct (function_copy_effect m this c s w Hc Hw Hne)
    as (m' & Hrun & Hthis & Hsame & Hheap).
  destruct (function_copy_spec m this c s Hc Hlive Hne)
    as (m0 & Hrun0 & _ & Hc' & _).
  assert (m0 = m') as -> by congruence.
  exists m'. split_and!; try done.
  - destruct s; by simplify_eq/=.
  - destruct s; by simplify_eq/=.
  - intros Hflag. destruct s; simplify_eq/=.
    split; [apply fresh_block|done].
  - by apply (function_copy_consistent m this c s).
Qed.

(** X5: move construction allocates and releases nothing: a heap block
    changes owner as it is (the callable's move constructor does not run),
    an inline adapter is rebuilt by one run of the move constructor, an
    empty source gives an empty container; the source is left empty and the
    memory stays consistent. *)
Theorem move_construction_effect m this c s :
  consistent m ->
  raw_storage m this ->
  view m c = Some s ->
  exists m',
    function_move this c m = Ok tt m' /\
    view m' this = Some (transferred s) /\
    view m' c = Some empty /\
    heap m' = heap m /\
    (forall d, d <> this -> d <> c -> view m' d = view m d) /\
    consistent m'.
Proof.
  intros Hm Hraw Hc.
  pose proof (raw_storage_distinct m this c s Hraw Hc) as Hne.
  destruct (function_move_spec m this c s Hc Hne)
    as (m' & Hrun & Hthis & Hc' & Hheap & Hsame).
  exists m'. split_and!; try done.
  - intros d ? ?. apply view_same; auto.
  - by apply (function_move_consistent m this c s).
Qed.

(** X6: move assignment first releases what the target held (its heap
    block, if it owned one, leaves the heap), then takes over what the
    source held; the source is left empty, no other container changes and
    the memory stays consistent. *)
Theorem move_assignment_effect m this other st s :
  consistent m ->
  view m this = Some st ->
  view m other = Some s ->
  this <> other ->
  exists m',
    assign_move this other m = Ok tt m' /\
    view m' this = Some (transferred s) /\
    view m' other = Some empty /\
    heap m' = released st (heap m) /\
    (forall a, owned st = Some a -> heap m' !! a = None) /\
    (forall d sd, d <> this -> d <> other ->
                  view m d = Some sd -> view m' d = Some sd) /\
    consistent m'.
Proof.
  intros Hm Hthis Hother Hne.
  pose proof Hm as (_ & Hexcl & _).
  destruct (assign_move_spec m this other st s Hthis Hother Hne)
    as (m' & Hrun & Hthis' & Hother' & Hheap & Hsame).
  { by apply (Hexcl this other). }
  exists m'. split_and!; try done.
  - intros a Ha. rewrite Hheap. unfold released. rewrite Ha.
    apply lookup_delete_eq.
  - intros d sd Hd Hd' Hsd. apply (view_released m m' d st sd); auto.
    by apply (Hexcl this d).
  - by apply (assign_move_consistent m this other st s).
Qed.

(** X7: [swap] of two distinct containers rebuilds an inline adapter of
    [other] twice (into the temporary, then into [*this]) and an inline
    adapter of [*this] once; heap blocks change owner as they are; the
    heap, every other object and the consistency of the memory are kept,
    and the storage of the temporary is raw again. *)
Theorem swap_effect m a b sa sb :
  consistent m ->
  view m a = Some sa ->
  view m b = Some sb ->
  a <> b ->
  exists m',
    swap a b m = Ok tt m' /\
    view m' a = Some (transferred (transferred sb)) /\
    view m' b = Some (transferred sa) /\
    heap m' = heap m /\
    (forall d, d <> a -> d <> b -> same_object m m' d) /\
    consistent m'.
Proof.
  intros Hm Ha Hb Hne.
  destruct (swap_spec m a b sa sb Ha Hb Hne)
    as (m' & Hrun & Ha' & Hb' & Hheap & Hsame).
  exists m'. split_and!; try done.
  by apply (swap_consistent m a b sa sb).
Qed.

(** X8: the state a callable captured is carried from one call to the
    next: the second of two calls on a live container runs on the adapter
    as the first call left it, and the container keeps its mode and its
    heap block. *)
Theorem calls_thread_captured_state m c s w (args1 args2 : Args) :
  view m c = Some s ->
  adapter s = Some w ->
  exists m1 m2,
    operator_call c args1 m = Ok (fst (call w args1)) m1 /\
    operator_call c args2 m1 =
      Ok (fst (call (snd (call w args1)) args2)) m2 /\
    view m2 c =
      Some (with_adapter (snd (call (snd (call w args1)) args2)) s) /\
    mode_flag <$> view m2 c = Some (mode_flag s) /\
    owned <$> view m2 c = Some (owned s).
Proof.
  intros Hc Hw.
  destruct (operator_call_effect m c s w args1 Hc Hw)
    as (m1 & Hrun1 & Hc1 & _).
  assert (adapter (with_adapter (snd (call w args1)) s) =
          Some (snd (call w args1))) as Hw1.
  { destruct s; by simplify_eq/=. }
  destruct (operator_call_effect m1 c _ _ args2 Hc1 Hw1)
    as (m2 & Hrun2 & Hc2 & _).
  assert (with_adapter (snd (call (snd (call w args1)) args2))
            (with_adapter (snd (call w args1)) s) =
          with_adapter (snd (call (snd (call w args1)) args2)) s) as E.
  { by destruct s. }
  rewrite E in Hc2.
  exists m1, m2. split_and!; try done; rewrite Hc2; cbn; f_equal;
    by destruct s.
Qed.

(** X9: a call, whether it returns or throws [bad_function_call], keeps
    the memory consistent and changes neither the mode flag nor the heap
    block of the container, nor the state of any other container. *)
Theorem call_keeps_consistency m c s (args : Args) :
  consistent m ->
  view m c = Some s ->
  exists m',
    final (operator_call c args m) = Some m' /\
    consistent m' /\
    mode_flag <$> view m' c = Some (mode_flag s) /\
    owned <$> view m' c = Some (owned s) /\
    (forall d sd, d <> c -> view m d = Some sd -> view m' d = Some sd).
Proof.
  intros Hm Hc. pose proof Hm as (_ & Hexcl & _).
  assert (exists m', final (operator_call c args m) = Some m' /\
                     exists s', view m' c = Some s' /\
                                mode_flag s' = mode_flag s /\
                                owned s' = owned s /\
                     forall d sd, d <> c -> view m d = Some sd ->
                                  view m' d = Some sd)
    as (m' & Hrun & s' & Hc' & Hflag & Hown & Hkeep).
  { destruct (adapter s) as [w|] eqn:Hw.
    - destruct (operator_call_spec m c s w args Hc Hw)
        as (m' & Hrun & Hc' & Hframe).
      exists m'. rewrite Hrun. split; [done|].
      exists (with_adapter (snd (call w args)) s). split_and!; try done.
      + by destruct s.
      + by destruct s.
      + intros d sd Hd Hsd. apply Hframe; auto. by apply (Hexcl c d).
    - destruct s; try done. exists m. split; [|by eauto].
      pose proof Hc as Hc'. facts Hc'. run. by maps. }
  exists m'. split_and!; try done.
  - by apply (operator_call_consistent m c s args).
  - by rewrite Hc', <- Hflag.
  - by rewrite Hc', <- Hown.
Qed.

(** X10: the destructor releases exactly the heap block the container
    owns and leaves the flag as it was; the union then holds no live
    object, so a second destructor call and a call of the container are
    undefined. *)
Theorem destructor_effect m c s (args : Args) :
  view m c = Some s ->
  exists m',
    function_destructor c m = Ok tt m' /\
    small_objects m' = small_objects m /\
    unions m' !! c = None /\
    heap m' = released s (heap m) /\
    function_destructor c m' = Undefined outside_lifetime /\
    operator_call c args m' = Undefined outside_lifetime.
Proof.
  intros Hc.
  destruct (destruction_spec m c s Hc)
    as (m' & Hrun & Hflags & Hunions & Hheap).
  assert (unions m' !! c = None) as Hgone.
  { rewrite Hunions. apply lookup_delete_eq. }
  assert (exists flag, small_objects m' !! c = Some flag) as [flag Hflag].
  { rewrite Hflags. by apply (view_unallocated m c s). }
  exists m'. split_and!; try done.
  - run. rewrite Hflag. destruct flag; by rewrite Hgone.
  - run. rewrite Hflag. destruct flag; cbn; by rewrite ?Hflag, Hgone.
Qed.

(** X11: at the end of the scope of a local container its block, if it
    owns one, is released and its storage is raw again; no other container
    changes and the memory stays consistent. *)
Theorem end_of_scope_effect m c s :
  consistent m ->
  view m c = Some s ->
  exists m',
    end_of_scope c m = Ok tt m' /\
    raw_storage m' c /\
    heap m' = released s (heap m) /\
    (forall d sd, d <> c -> view m d = Some sd -> view m' d = Some sd) /\
    consistent m'.
Proof.
  intros Hm Hc. pose proof Hm as (_ & Hexcl & _).
  destruct (end_of_scope_spec m c s Hc)
    as (m' & Hrun & Hflags & Hunions & Hheap).
  exists m'. split_and!; try done.
  - split; [rewrite Hflags|rewrite Hunions]; apply lookup_delete_eq.
  - intros d sd Hd Hsd. apply (view_released m m' d s sd); auto.
    + split; [rewrite Hflags|rewrite Hunions]; by maps.
    + by apply (Hexcl c d).
  - by apply (end_of_scope_consistent m c s).
Qed.


(** X13: move assignment of a container to itself destroys what it holds
    and then reads it: undefined, whatever the container held. *)
Theorem self_move_assignment_is_undefined m c s :
  view m c = Some s ->
  assign_move c c m = Undefined outside_lifetime.
Proof.
  intros Hc. destruct s; facts Hc; run; by maps.
Qed.

(** X14: [swap] of a container with itself is undefined: after the
    temporary took over its contents, the container is move assigned to
    itself. *)
Theorem self_swap_is_undefined m c s :
  view m c = Some s ->
  swap c c m = Undefined outside_lifetime.
Proof.
  intros Hc. unfold swap.
  destruct (local_variable_fresh m) as [Hfresh _].
  set (tmp := fresh (dom (small_objects m) ∪ dom (unions m))) in *.
  change (bind local_variable ?k m) with (k tmp m). cbv beta.
  assert (tmp <> c) as Hne.
  { intros ->. destruct (view_unallocated _ _ _ Hc). congruence. }
  destruct (function_move_spec m tmp c s Hc Hne)
    as (m1 & Hrun1 & _ & Hc1 & _).
  rewrite (bind_ok _ _ _ _ _ Hrun1).
  apply bind_undefined. facts Hc1. run. by maps.
Qed.


(** X16: after a move construction the source can go out of scope: its
    destructor releases nothing, the new container keeps what it took over
    and the memory stays consistent. *)
Theorem moved_from_goes_out_of_scope m this c s :
  consistent m ->
  raw_storage m this ->
  view m c = Some s ->
  exists m1 m2,
    function_move this c m = Ok tt m1 /\
    end_of_scope c m1 = Ok tt m2 /\
    view m2 this = Some (transferred s) /\
    raw_storage m2 c /\
    heap m2 = heap m /\
    consistent m2.
Proof.
  intros Hm Hraw Hc.
  pose proof (raw_storage_distinct m this c s Hraw Hc) as Hne.
  destruct (function_move_spec m this c s Hc Hne)
    as (m1 & Hrun1 & Hthis1 & Hc1 & Hheap1 & _).
  pose proof (function_move_consistent m this c s m1 Hm Hraw Hc Hrun1)
    as Hm1.
  destruct (end_of_scope_spec m1 c empty Hc1)
    as (m2 & Hrun2 & Hflags2 & Hunions2 & Hheap2).
  exists m1, m2. split_and!; try done.
  - apply (view_released m1 m2 this empty (transferred s));
      [|done|done|exact I].
    split; [rewrite Hflags2|rewrite Hunions2]; by maps.
  - split; [rewrite Hflags2|rewrite Hunions2]; apply lookup_delete_eq.
  - by rewrite Hheap2, <- Hheap1.
  - by apply (end_of_scope_consistent m1 c empty m2).
Qed.
End Ownership.

(** ** The contracts at concrete containers *)

Lemma nothing_consistent : consistent nothing.
Proof.
  split; [|split].
  - intros d [[? H]|[? H]]; unfold nothing in H; cbn in H;
      by rewrite lookup_empty in H.
  - intros c1 c2 s1 s2 _ H. unfold view, nothing in H. cbn in H.
    by rewrite lookup_empty in H.
  - intros a [? H]. unfold nothing in H. cbn in H.
    by rewrite lookup_empty in H.
Qed.

Lemma three_containers_consistent : consistent three_containers.
Proof.
  apply (function_nullptr_consistent
           (after (function_from large_counter 7 1)
              (after (function_from counter 5 0) nothing)) 2);
    [|by split|reflexivity].
  apply (function_from_consistent large_counter 7
           (after (function_from counter 5 0) nothing) 1);
    [|by split|reflexivity].
  apply (function_from_consistent counter 5 nothing 0);
    [|by split|reflexivity].
  apply nothing_consistent.
Qed.

Lemma two_movers_consistent : consistent two_movers.
Proof.
  apply (function_from_consistent move_counting 0
           (after (function_from move_counting 0 0) nothing) 1);
    [|by split|reflexivity].
  apply (function_from_consistent move_counting 0 nothing 0);
    [|by split|reflexivity].
  apply nothing_consistent.
Qed.


Lemma copy_construction_effect_witness :
  consistent three_containers /\
  raw_storage three_containers 3 /\
  view three_containers 1 =
    Some (live_heap 0 (wrapper_function large_counter 7)) /\
  exists m',
    function_copy 3 1 three_containers = Ok tt m' /\
    view m' 3 = Some (live_heap 1 (wrapper_function large_counter 7)) /\
    heap three_containers !! 1%nat = None /\
    consistent m'.
Proof.
  split; [apply three_containers_consistent|]. split; [by split|].
  split; [reflexivity|].
  destruct (copy_construction_effect three_containers 3 1
              (live_heap 0 (wrapper_function large_counter 7))
              (wrapper_function large_counter 7)
              three_containers_consistent (conj eq_refl eq_refl)
              eq_refl eq_refl)
    as (m' & Hrun & Hview & _ & _ & _ & Hheap & Hm').
  exists m'. split; [exact Hrun|]. split; [exact Hview|].
  split; [exact (proj1 (Hheap eq_refl))|exact Hm'].
Defined.

Lemma move_construction_effect_witness :
  consistent three_containers /\
  raw_storage three_containers 3 /\
  view three_containers 0 = Some (live_inline (wrapper_function counter 5)) /\
  exists m',
    function_move 3 0 three_containers = Ok tt m' /\
    view m' 3 = Some (live_inline (wrapper_function counter 5)) /\
    view m' 0 = Some empty /\
    heap m' = heap three_containers /\
    consistent m'.
Proof.
  split; [apply three_containers_consistent|]. split; [by split|].
  split; [reflexivity|].
  destruct (move_construction_effect three_containers 3 0
              (live_inline (wrapper_function counter 5))
              three_containers_consistent (conj eq_refl eq_refl) eq_refl)
    as (m' & Hrun & Hview & Hsource & Hheap & _ & Hm').
  exists m'. split; [exact Hrun|]. split; [exact Hview|].
  split; [exact Hsource|]. split; [exact Hheap|exact Hm'].
Defined.

Lemma move_assignment_effect_witness :
  consistent three_containers /\
  view three_containers 1 =
    Some (live_heap 0 (wrapper_function large_counter 7)) /\
  view three_containers 0 = Some (live_inline (wrapper_function counter 5)) /\
  exists m',
    assign_move 1 0 three_containers = Ok tt m' /\
    view m' 1 = Some (live_inline (wrapper_function counter 5)) /\
    view m' 0 = Some empty /\
    heap m' !! 0%nat = None /\
    consistent m'.
Proof.
  split; [apply three_containers_consistent|].
  split; [reflexivity|]. split; [reflexivity|].
  destruct (move_assignment_effect three_containers 1 0
              (live_heap 0 (wrapper_function large_counter 7))
              (live_inline (wrapper_function counter 5))
              three_containers_consistent eq_refl eq_refl)
    as (m' & Hrun & Hview & Hsource & _ & Hgone & _ & Hm'); [lia|].
  exists m'. split; [exact Hrun|]. split; [exact Hview|].
  split; [exact Hsource|]. split; [exact (Hgone 0%nat eq_refl)|exact Hm'].
Defined.

Lemma swap_effect_witness :
  consistent two_movers /\
  view two_movers 0 = Some (live_inline (wrapper_function move_counting 1)) /\
  view two_movers 1 = Some (live_inline (wrapper_function move_counting 1)) /\
  exists m',
    swap 0 1 two_movers = Ok tt m' /\
    view m' 0 = Some (live_inline (wrapper_function move_counting 3)) /\
    view m' 1 = Some (live_inline (wrapper_function move_counting 2)) /\
    consistent m'.
Proof.
  split; [apply two_movers_consistent|].
  split; [reflexivity|]. split; [reflexivity|].
  destruct (swap_effect two_movers 0 1
              (live_inline (wrapper_function move_counting 1))
              (live_inline (wrapper_function move_counting 1))
              two_movers_consistent eq_refl eq_refl)
    as (m' & Hrun & Ha & Hb & _ & _ & Hm'); [lia|].
  exists m'. split; [exact Hrun|]. split; [exact Ha|].
  split; [exact Hb|exact Hm'].
Defined.

Lemma calls_thread_captured_state_witness :
  view three_containers 0 = Some (live_inline (wrapper_function counter 5)) /\
  exists m1 m2,
    operator_call 0 3 three_containers = Ok 8 m1 /\
    operator_call 0 3 m1 = Ok 9 m2 /\
    view m2 0 = Some (live_inline (wrapper_function counter 7)).
Proof.
  split; [reflexivity|].
  destruct (calls_thread_captured_state three_containers 0
              (live_inline (wrapper_function counter 5))
              (wrapper_function counter 5) 3 3 eq_refl eq_refl)
    as (m1 & m2 & Hrun1 & Hrun2 & Hview & _).
  exists m1, m2. split; [exact Hrun1|]. split; [exact Hrun2|exact Hview].
Defined.

Lemma call_keeps_consistency_witness :
  consistent three_containers /\
  view three_containers 1 =
    Some (live_heap 0 (wrapper_function large_counter 7)) /\
  exists m',
    final (operator_call 1 3 three_containers) = Some m' /\
    consistent m' /\
    mode_flag <$> view m' 1 = Some false /\
    owned <$> view m' 1 = Some (Some 0%nat).
Proof.
  split; [apply three_containers_consistent|]. split; [reflexivity|].
  destruct (call_keeps_consistency three_containers 1
              (live_heap 0 (wrapper_function large_counter 7)) 3
              three_containers_consistent eq_refl)
    as (m' & Hrun & Hm' & Hflag & Hown & _).
  exists m'. split; [exact Hrun|]. split; [exact Hm'|].
  split; [exact Hflag|exact Hown].
Defined.

Lemma destructor_effect_witness :
  view three_containers 1 =
    Some (live_heap 0 (wrapper_function large_counter 7)) /\
  exists m',
    function_destructor 1 three_containers = Ok tt m' /\
    heap m' = delete 0%nat (heap three_containers) /\
    function_destructor 1 m' = Undefined outside_lifetime /\
    operator_call 1 3 m' = Undefined outside_lifetime.
Proof.
  split; [reflexivity|].
  destruct (destructor_effect three_containers 1
              (live_heap 0 (wrapper_function large_counter 7)) 3 eq_refl)
    as (m' & Hrun & _ & _ & Hheap & Htwice & Hcall).
  exists m'. split; [exact Hrun|]. split; [exact Hheap|].
  split; [exact Htwice|exact Hcall].
Defined.

Lemma end_of_scope_effect_witness :
  consistent three_containers /\
  view three_containers 1 =
    Some (live_heap 0 (wrapper_function large_counter 7)) /\
  exists m',
    end_of_scope 1 three_containers = Ok tt m' /\
    raw_storage m' 1 /\
    consistent m'.
Proof.
  split; [apply three_containers_consistent|]. split; [reflexivity|].
  destruct (end_of_scope_effect three_containers 1
              (live_heap 0 (wrapper_function large_counter 7))
              three_containers_consistent eq_refl)
    as (m' & Hrun & Hraw & _ & _ & Hm').
  exists m'. split; [exact Hrun|]. split; [exact Hraw|exact Hm'].
Defined.


Lemma self_move_assignment_is_undefined_witness :
  view three_containers 1 =
    Some (live_heap 0 (wrapper_function large_counter 7)) /\
  assign_move 1 1 three_containers = Undefined outside_lifetime.
Proof.
  split; [reflexivity|].
  exact (self_move_assignment_is_undefined three_containers 1
           (live_heap 0 (wrapper_function large_counter 7)) eq_refl).
Defined.

Lemma self_swap_is_undefined_witness :
  view three_containers 0 = Some (live_inline (wrapper_function counter 5)) /\
  swap 0 0 three_containers = Undefined outside_lifetime.
Proof.
  split; [reflexivity|].
  exact (self_swap_is_undefined three_containers 0
           (live_inline (wrapper_function counter 5)) eq_refl).
Defined.



Lemma moved_from_goes_out_of_scope_witness :
  consistent three_containers /\
  raw_storage three_containers 3 /\
  view three_containers 1 =
    Some (live_heap 0 (wrapper_function large_counter 7)) /\
  exists m1 m2,
    function_move 3 1 three_containers = Ok tt m1 /\
    end_of_scope 1 m1 = Ok tt m2 /\
    view m2 3 = Some (live_heap 0 (wrapper_function large_counter 7)) /\
    heap m2 = heap three_containers /\
    consistent m2.
Proof.
  split; [apply three_containers_consistent|]. split; [by split|].
  split; [reflexivity|].
  destruct (moved_from_goes_out_of_scope three_containers 3 1
              (live_heap 0 (wrapper_function large_counter 7))
              three_containers_consistent (conj eq_refl eq_refl) eq_refl)
    as (m1 & m2 & Hrun1 & Hrun2 & Hview & _ & Hheap & Hm2).
  exists m1, m2. split; [exact Hrun1|]. split; [exact Hrun2|].
  split; [exact Hview|]. split; [exact Hheap|exact Hm2].
Defined.
